(** * Event sequences and their run-length encoding

    A shallow embedding of [magenta/music/events_lib.py]: the classes
    [SimpleEventSequence] and [RunLengthEncodedEventSequence], with the
    properties of the run-length codec stated and proved over it.

    Python integers are [Z]; a Python list is a [list]; an object is a record
    of its attributes and a method is a function from the object's state
    before the call to its state after it.  A method that can raise returns an
    [outcome], which keeps the state the object has when the exception leaves
    the method. *)

From Stdlib Require Import String ZArith List Bool Lia.
Import ListNotations.
Local Open Scope Z_scope.

(** ** Python values *)

(** Events are dynamically typed values that the library only compares.
    [py_None] is the value [None], with which the encoding loops initialise
    [current_event]. *)
Class PyEvent (E : Type) : Type := {
  py_eq_dec : forall x y : E, {x = y} + {x <> y};
  py_None : E
}.

(** [a != b] *)
Definition py_ne {E : Type} `{PyEvent E} (a b : E) : bool :=
  if py_eq_dec a b then false else true.

(** [l * k] on a list: [k] copies of [l], none when [k <= 0]. *)
Definition py_list_mul {A : Type} (l : list A) (k : Z) : list A :=
  concat (repeat l (Z.to_nat k)).

(** [l[-1]], which raises [IndexError] on the empty list. *)
Definition py_last {A : Type} (l : list A) : option A :=
  match rev l with
  | [] => None
  | x :: _ => Some x
  end.

(** A bound [i] of a slice [l[i:j]] of a list of length [len], as Python
    clamps it: a negative bound counts from the end, and the result is kept
    within [0] and [len]; a bound left out is [default]. *)
Definition py_slice_bound (len : Z) (bound : option Z) (default : Z) : Z :=
  match bound with
  | None => default
  | Some i => if i <? 0 then Z.max (i + len) 0 else Z.min i len
  end.

(** [del l[i:j]] *)
Definition py_del_slice {A : Type} (l : list A) (i j : option Z) : list A :=
  let len := Z.of_nat (length l) in
  let start := py_slice_bound len i 0 in
  let stop := py_slice_bound len j len in
  firstn (Z.to_nat start) l ++ skipn (Z.to_nat (Z.max start stop)) l.

(** [l[i]] for an integer [i], [None] when it raises [IndexError]. *)
Definition py_getitem {A : Type} (l : list A) (i : Z) : option A :=
  let len := Z.of_nat (length l) in
  let i := if i <? 0 then i + len else i in
  if (i <? 0) || (i >=? len) then None else nth_error l (Z.to_nat i).

(** [l1 == l2] on lists of events. *)
Fixpoint py_list_eqb {E : Type} `{PyEvent E} (l1 l2 : list E) : bool :=
  match l1, l2 with
  | [], [] => true
  | x :: l1, y :: l2 => negb (py_ne x y) && py_list_eqb l1 l2
  | _, _ => false
  end.

Inductive exn : Type :=
| RunLengthEncodedEventSequenceException (msg : string)
| ValueError (msg : string)
| IndexError
| TypeError (msg : string).

(** The result of calling a constructor. *)
Inductive result (A : Type) : Type :=
| Ok (self : A)
| Error (e : exn).
Arguments Ok {A} self.
Arguments Error {A} e.

(** The result of calling a method on an object: it returns, or it raises; in
    both cases [self] is the state of the object when control leaves. *)
Inductive outcome (A : Type) : Type :=
| Returned (self : A)
| Raised (e : exn) (self : A).
Arguments Returned {A} self.
Arguments Raised {A} e self.

Definition state_of {A : Type} (o : outcome A) : A :=
  match o with
  | Returned s => s
  | Raised _ s => s
  end.

Definition raised {A : Type} (o : outcome A) : bool :=
  match o with
  | Returned _ => false
  | Raised _ _ => true
  end.

(** ** class SimpleEventSequence *)

Module SimpleEventSequence.

Record t (E : Type) : Type := mk {
  _pad_event : E;
  _events : list E;
  _start_step : Z;
  _end_step : Z;
  _steps_per_bar : Z;
  _steps_per_quarter : Z
}.
Arguments mk {E}.
Arguments _pad_event {E}.
Arguments _events {E}.
Arguments _start_step {E}.
Arguments _end_step {E}.
Arguments _steps_per_bar {E}.
Arguments _steps_per_quarter {E}.

Section Methods.
Context {E : Type} `{PyEvent E}.

Definition __len__ (self : t E) : Z := Z.of_nat (length (_events self)).

(** The truth value of the object in [if base_events:].  The class defines
    [__len__] and no truth method of its own, so the object is true when its
    length is not zero. *)
Definition truth_value (self : t E) : bool := negb (__len__ self =? 0).

Definition __iter__ (self : t E) : list E := _events self.

Definition pad_event (self : t E) : E := _pad_event self.
Definition start_step (self : t E) : Z := _start_step self.
Definition end_step (self : t E) : Z := _end_step self.
Definition steps_per_bar (self : t E) : Z := _steps_per_bar self.
Definition steps_per_quarter (self : t E) : Z := _steps_per_quarter self.

(** [__init__], with [events] given ([_from_event_list]) or left at [None]. *)
Definition __init__ (pad_event : E) (events : option (list E))
    (start_step steps_per_bar steps_per_quarter : Z) : t E :=
  match events with
  | Some events =>
      mk pad_event events start_step
         (start_step + Z.of_nat (length events))
         steps_per_bar steps_per_quarter
  | None =>
      mk pad_event [] start_step start_step steps_per_bar steps_per_quarter
  end.

Definition append (self : t E) (event : E) : t E :=
  mk (_pad_event self)
     (_events self ++ [event])
     (_start_step self)
     (_end_step self + 1)
     (_steps_per_bar self)
     (_steps_per_quarter self).

(** [fill_event] is [py_None] when the argument is left out.  The body has no
    [raise] and no operation that fails on an integer [k]: every call
    returns. *)
Definition increase_resolution (self : t E) (k : Z) (fill_event : E)
    : outcome (t E) :=
  let fill : E -> list E :=
    if py_eq_dec fill_event py_None
    then fun event => py_list_mul [event] k
    else fun event => [event] ++ py_list_mul [fill_event] (k - 1) in
  let new_events :=
    fold_left (fun new_events event => new_events ++ fill event)
              (_events self) [] in
  Returned (mk (_pad_event self)
               new_events
               (_start_step self * k)
               (_end_step self * k)
               (_steps_per_bar self * k)
               (_steps_per_quarter self * k)).

(** [self[i]] for an integer [i]. *)
Definition __getitem__ (self : t E) (i : Z) : result E :=
  match py_getitem (_events self) i with
  | Some event => Ok event
  | None => Error IndexError
  end.

(** [copy.deepcopy(self._events)] is a list of the same values; the copy is
    built by [__init__], which computes [end_step] anew. *)
Definition __deepcopy__ (self : t E) : t E :=
  __init__ (pad_event self) (Some (_events self)) (start_step self)
           (steps_per_bar self) (steps_per_quarter self).

(** [__eq__], applied to a [SimpleEventSequence] or to anything else. *)
Definition __eq__ (self : t E) (other : option (t E)) : bool :=
  match other with
  | None => false
  | Some other =>
      py_list_eqb (__iter__ self) (__iter__ other)
      && (steps_per_bar self =? steps_per_bar other)
      && (steps_per_quarter self =? steps_per_quarter other)
      && (start_step self =? start_step other)
      && (end_step self =? end_step other)
  end.

(** [self._events[:0] = padding] puts the padding in front; [del
    self._events[0:-steps]] and [del self._events[steps:]] are slices with
    Python's clamping of the bounds. *)
Definition set_length (self : t E) (steps : Z) (from_left : bool) : t E :=
  let events :=
    if steps >? __len__ self then
      if from_left
      then py_list_mul [_pad_event self] (steps - __len__ self) ++ _events self
      else _events self ++ py_list_mul [_pad_event self] (steps - __len__ self)
    else
      if from_left
      then py_del_slice (_events self) (Some 0) (Some (- steps))
      else py_del_slice (_events self) (Some steps) None in
  if from_left
  then mk (_pad_event self) events (_end_step self - steps) (_end_step self)
          (_steps_per_bar self) (_steps_per_quarter self)
  else mk (_pad_event self) events (_start_step self) (_start_step self + steps)
          (_steps_per_bar self) (_steps_per_quarter self).

End Methods.
End SimpleEventSequence.

(** ** class RunLengthEncodedEventSequence *)

Module RunLengthEncodedEventSequence.

Record t (E : Type) : Type := mk {
  _pad_event : E;
  _max_run_length : Z;
  _events : list (E * Z);
  _start_step : Z;
  _steps_per_quarter : Z
}.
Arguments mk {E}.
Arguments _pad_event {E}.
Arguments _max_run_length {E}.
Arguments _events {E}.
Arguments _start_step {E}.
Arguments _steps_per_quarter {E}.

(** What a caller can pass as [base_events]: the constructor tests
    [isinstance(base_events, SimpleEventSequence)]. *)
Inductive base_arg (E : Type) : Type :=
| IsSimple (base_events : SimpleEventSequence.t E)
| NotSimple.
Arguments IsSimple {E} base_events.
Arguments NotSimple {E}.

(** What a caller can pass to [append]: the method tests that it is a tuple
    of length 2 and that its second component is an [int]. *)
Inductive run_length_arg : Type :=
| IsInt (n : Z)
| NotInt.

Inductive event_arg (E : Type) : Type :=
| IsPair (base_event : E) (run_length : run_length_arg)
| NotPair.
Arguments IsPair {E} base_event run_length.
Arguments NotPair {E}.

Section Methods.
Context {E : Type} `{PyEvent E}.

(** [self._events = events] and [self._start_step = start_step] *)
Definition set_events (self : t E) (events : list (E * Z)) : t E :=
  mk (_pad_event self) (_max_run_length self) events
     (_start_step self) (_steps_per_quarter self).

Definition set_start_step (self : t E) (start_step : Z) : t E :=
  mk (_pad_event self) (_max_run_length self) (_events self)
     start_step (_steps_per_quarter self).

(** The [for event in base_events] loop of [__init__]; [events] is
    [self._events]. *)
Fixpoint encode_loop (max_run_length : Z) (base_events : list E)
    (events : list (E * Z)) (current_event : E) (current_run_length : Z)
    : list (E * Z) * E * Z :=
  match base_events with
  | [] => (events, current_event, current_run_length)
  | event :: base_events =>
      if py_ne event current_event || (current_run_length =? max_run_length)
      then
        let events :=
          if current_run_length >? 0
          then events ++ [(current_event, current_run_length)]
          else events in
        encode_loop max_run_length base_events events event (0 + 1)
      else
        encode_loop max_run_length base_events events current_event
                    (current_run_length + 1)
  end.

Definition __init__ (base_events : base_arg E) (max_run_length : Z)
    : result (t E) :=
  match base_events with
  | NotSimple =>
      Error (RunLengthEncodedEventSequenceException
               "base event sequence must have type SimpleEventSequence")
  | IsSimple base_events =>
      let '(events, current_event, current_run_length) :=
        encode_loop max_run_length (SimpleEventSequence.__iter__ base_events)
                    [] py_None 0 in
      let events :=
        if current_run_length >? 0
        then events ++ [(current_event, current_run_length)]
        else events in
      Ok (mk (SimpleEventSequence.pad_event base_events)
             max_run_length
             events
             (SimpleEventSequence.start_step base_events)
             (SimpleEventSequence.steps_per_quarter base_events))
  end.

(** The call [RunLengthEncodedEventSequence(base_events, max_run_length,
    name=value, ...)], with both parameters of [__init__] given by position
    and any keyword arguments after them.  Python binds the arguments to the
    signature [(self, base_events, max_run_length=DEFAULT_MAX_RUN_LENGTH)]
    before the body runs: a keyword that names one of the two parameters
    gives it a second value, any other keyword names no parameter, and both
    raise [TypeError].  The values of the keywords are not looked at. *)
Definition call_with_keywords {V : Type} (base_events : base_arg E)
    (max_run_length : Z) (keywords : list (string * V)) : result (t E) :=
  match keywords with
  | [] => __init__ base_events max_run_length
  | (name, _) :: _ =>
      if String.eqb name "base_events" || String.eqb name "max_run_length"
      then Error (TypeError
                    (String.append
                       "__init__() got multiple values for keyword argument '"
                       (String.append name "'")))
      else Error (TypeError
                    (String.append
                       "__init__() got an unexpected keyword argument '"
                       (String.append name "'")))
  end.

(** [sum(run_length for event, run_length in self._events)] *)
Definition num_steps (self : t E) : Z :=
  fold_left (fun total run => total + snd run) (_events self) 0.

Definition start_step (self : t E) : Z := _start_step self.
Definition end_step (self : t E) : Z := start_step self + num_steps self.
Definition steps_per_quarter (self : t E) : Z := _steps_per_quarter self.

Definition __len__ (self : t E) : Z := Z.of_nat (length (_events self)).
Definition __iter__ (self : t E) : list (E * Z) := _events self.

Definition append (self : t E) (event : event_arg E) : outcome (t E) :=
  match event with
  | NotPair =>
      Raised (ValueError
                "run-length encoded event must be (base event, run-length) tuple")
             self
  | IsPair base_event NotInt =>
      Raised (ValueError "run-length must be positive integer") self
  | IsPair base_event (IsInt run_length) =>
      if run_length <? 1
      then Raised (ValueError "run-length must be positive integer") self
      else if run_length >? _max_run_length self
      then Raised (ValueError "run-length exceeds maximum run-length") self
      else Returned (set_events self (_events self ++ [(base_event, run_length)]))
  end.

(** The [while steps > 0] loop of [_padding].  It does not end when
    [max_run_length <= 0]; [fuel] bounds the number of tests of its
    condition, and [None] is a loop that is still running. *)
Fixpoint padding_loop (fuel : nat) (self : t E) (steps : Z)
    (events : list (E * Z)) : option (list (E * Z)) :=
  match fuel with
  | O => None
  | S fuel =>
      if steps >? 0 then
        let added_steps := Z.min steps (_max_run_length self) in
        padding_loop fuel self (steps - added_steps)
                     (events ++ [(_pad_event self, added_steps)])
      else Some events
  end.

Definition _padding (fuel : nat) (self : t E) (steps : Z)
    : option (list (E * Z)) :=
  padding_loop fuel self steps [].

(** The [for event, run_length in self._events] loop of
    [_standardize_run_lengths]. *)
Fixpoint standardize_loop (max_run_length : Z) (events : list (E * Z))
    (new_events : list (E * Z)) (current_event : E) (current_run_length : Z)
    : list (E * Z) * E * Z :=
  match events with
  | [] => (new_events, current_event, current_run_length)
  | (event, run_length) :: events =>
      let '(new_events, current_event, current_run_length) :=
        if py_ne event current_event
        then
          (if current_run_length >? 0
           then new_events ++ [(current_event, current_run_length)]
           else new_events,
           event, 0)
        else (new_events, current_event, current_run_length) in
      let current_run_length := current_run_length + run_length in
      if current_run_length >=? max_run_length
      then standardize_loop max_run_length events
             (new_events ++ [(current_event, max_run_length)])
             current_event (current_run_length - max_run_length)
      else standardize_loop max_run_length events
             new_events current_event current_run_length
  end.

Definition _standardize_run_lengths (self : t E) : t E :=
  let '(new_events, current_event, current_run_length) :=
    standardize_loop (_max_run_length self) (_events self) [] py_None 0 in
  let new_events :=
    if current_run_length >? 0
    then new_events ++ [(current_event, current_run_length)]
    else new_events in
  set_events self new_events.

(** The [while steps_to_remove > 0] loop of [set_length] that removes from
    the left.  [self._events[0]] raises [IndexError] on the empty list;
    [self._events[0:]] is [skipn 0].  [fuel] is as in [padding_loop]. *)
Fixpoint shrink_left_loop (fuel : nat) (self : t E) (steps_to_remove : Z)
    : option (outcome (t E)) :=
  match fuel with
  | O => None
  | S fuel =>
      if steps_to_remove >? 0 then
        match _events self with
        | [] => Some (Raised IndexError self)
        | (event, run_length) :: following =>
            if run_length >? steps_to_remove
            then shrink_left_loop fuel
                   (set_events self
                      ((event, run_length - steps_to_remove) :: following))
                   0
            else shrink_left_loop fuel
                   (set_events self (skipn 0 (_events self)))
                   (steps_to_remove - run_length)
        end
      else Some (Returned self)
  end.

(** The loop of [set_length] that removes from the right.
    [self._events[-1]] raises [IndexError] on the empty list;
    [self._events[:-1]] is [removelast]. *)
Fixpoint shrink_right_loop (fuel : nat) (self : t E) (steps_to_remove : Z)
    : option (outcome (t E)) :=
  match fuel with
  | O => None
  | S fuel =>
      if steps_to_remove >? 0 then
        match py_last (_events self) with
        | None => Some (Raised IndexError self)
        | Some (event, run_length) =>
            if run_length >? steps_to_remove
            then shrink_right_loop fuel
                   (set_events self
                      (removelast (_events self)
                       ++ [(event, run_length - steps_to_remove)]))
                   0
            else shrink_right_loop fuel
                   (set_events self (removelast (_events self)))
                   (steps_to_remove - run_length)
        end
      else Some (Returned self)
  end.

(** [set_length]: the padding or the removal, then
    [self._standardize_run_lengths()], which an exception raised before it
    skips. *)
Definition set_length (fuel : nat) (self : t E) (steps : Z) (from_left : bool)
    : option (outcome (t E)) :=
  let resized : option (outcome (t E)) :=
    if steps >? num_steps self then
      let steps_to_add := steps - num_steps self in
      if from_left then
        let self := set_start_step self (_start_step self - steps_to_add) in
        match _padding fuel self steps_to_add with
        | Some padding => Some (Returned (set_events self (padding ++ _events self)))
        | None => None
        end
      else
        match _padding fuel self steps_to_add with
        | Some padding => Some (Returned (set_events self (_events self ++ padding)))
        | None => None
        end
    else
      let steps_to_remove := num_steps self - steps in
      if from_left then
        let self := set_start_step self (_start_step self + steps_to_remove) in
        shrink_left_loop fuel self steps_to_remove
      else
        shrink_right_loop fuel self steps_to_remove in
  match resized with
  | Some (Returned self) => Some (Returned (_standardize_run_lengths self))
  | Some (Raised e self) => Some (Raised e self)
  | None => None
  end.

(** [for _ in range(run_length): base_events.append(event)], [count] being
    the length of [range(run_length)]: none when [run_length <= 0]. *)
Fixpoint decode_run (count : nat) (event : E)
    (base_events : SimpleEventSequence.t E) : SimpleEventSequence.t E :=
  match count with
  | O => base_events
  | S count =>
      decode_run count event (SimpleEventSequence.append base_events event)
  end.

(** [for (event, run_length) in self._events] *)
Fixpoint decode_loop (events : list (E * Z))
    (base_events : SimpleEventSequence.t E) : SimpleEventSequence.t E :=
  match events with
  | [] => base_events
  | (event, run_length) :: events =>
      decode_loop events (decode_run (Z.to_nat run_length) event base_events)
  end.

(** [decode] works on two objects, the encoded sequence and the sequence it
    is given to fill: the outcome carries both. *)
Definition decode (self : t E) (base_events : SimpleEventSequence.t E)
    : outcome (t E * SimpleEventSequence.t E) :=
  if SimpleEventSequence.truth_value base_events
  then Raised (RunLengthEncodedEventSequenceException
                 "cannot decode into non-empty event sequence")
              (self, base_events)
  else Returned (self, decode_loop (_events self) base_events).

(** [self[i]] for an integer [i]: a run. *)
Definition __getitem__ (self : t E) (i : Z) : result (E * Z) :=
  match py_getitem (_events self) i with
  | Some run => Ok run
  | None => Error IndexError
  end.

End Methods.
End RunLengthEncodedEventSequence.

Module Simple := SimpleEventSequence.
Module RLE := RunLengthEncodedEventSequence.

(** ** The values of the test suite: [None], integers, strings *)

Inductive pyval : Type :=
| PyNone
| PyInt (n : Z)
| PyStr (s : string).

Definition pyval_eq_dec (x y : pyval) : {x = y} + {x <> y}.
Proof.
  decide equality; [apply Z.eq_dec | apply string_dec].
Defined.

#[export] Instance pyval_event : PyEvent pyval :=
  {| py_eq_dec := pyval_eq_dec; py_None := PyNone |}.

Definition A_ : pyval := PyStr "A".
Definition B_ : pyval := PyStr "B".
Definition C_ : pyval := PyStr "C".
Definition pad_ : pyval := PyStr "_".

(** ** Vocabulary of the properties *)

Section Vocabulary.
Context {E : Type}.

(** The underlying sequence of a run list: each run's event, [run_length]
    times, in run order. *)
Definition expand (events : list (E * Z)) : list E :=
  flat_map (fun run => repeat (fst run) (Z.to_nat (snd run))) events.

(** Every run length is in [[1, max_run_length]]. *)
Definition runs_bounded (max_run_length : Z) (events : list (E * Z)) : Prop :=
  Forall (fun run => 1 <= snd run <= max_run_length) events.

(** Every run is full or has at least one step: what the methods of the
    class keep of the run list whatever the cap is. *)
Definition runs_full_or_positive (max_run_length : Z) (events : list (E * Z))
    : Prop :=
  Forall (fun run => snd run = max_run_length \/ 1 <= snd run) events.

(** Canonical form: two adjacent runs have equal events only when the earlier
    one has length [max_run_length]. *)
Fixpoint canonical (max_run_length : Z) (events : list (E * Z)) : Prop :=
  match events with
  | [] => True
  | run :: following =>
      match following with
      | [] => True
      | next :: _ =>
          (fst run = fst next -> snd run = max_run_length)
          /\ canonical max_run_length following
      end
  end.

(** What the loops know about the run appended last: it is full, or it is a
    run of another event than the one being counted. *)
Definition last_run_closed (max_run_length : Z) (events : list (E * Z))
    (current_event : E) (current_run_length : Z) : Prop :=
  forall y, py_last events = Some y ->
    snd y = max_run_length \/ (fst y <> current_event /\ 0 < current_run_length).

(** The class invariant of the docstring: run lengths are integers between 1
    and [max_run_length]. *)
Definition well_formed (self : RLE.t E) : Prop :=
  1 <= RLE._max_run_length self
  /\ runs_bounded (RLE._max_run_length self) (RLE._events self).

End Vocabulary.

(** ** Reachable objects *)

Section Reachability.
Context {E : Type} `{PyEvent E}.

(** The objects a client obtains through the class: built by the
    constructor, then changed by [append] and [set_length], whether the call
    returns or raises. *)
Inductive reachable : RLE.t E -> Prop :=
| reachable_init (base_events : Simple.t E) (max_run_length : Z)
    (self : RLE.t E) :
    RLE.__init__ (RLE.IsSimple base_events) max_run_length = Ok self ->
    reachable self
| reachable_append (self : RLE.t E) (event : RLE.event_arg E) :
    reachable self ->
    reachable (state_of (RLE.append self event))
| reachable_set_length (self : RLE.t E) (fuel : nat) (steps : Z)
    (from_left : bool) (out : outcome (RLE.t E)) :
    reachable self ->
    RLE.set_length fuel self steps from_left = Some out ->
    reachable (state_of out).

End Reachability.

(** ** Objects of the examples *)

(** A [SimpleEventSequence] of strings padded with ['_'], 16 steps per bar
    and 4 per quarter. *)
Definition simple_of (events : list pyval) (start_step : Z) : Simple.t pyval :=
  Simple.__init__ pad_ (Some events) start_step 16 4.

Definition empty_at (start_step : Z) : Simple.t pyval :=
  Simple.__init__ pad_ None start_step 16 4.

Definition rle_of (events : list (pyval * Z)) (max_run_length start_step : Z)
    : RLE.t pyval :=
  RLE.mk pad_ max_run_length events start_step 4.

(** [SimpleEventSequence(pad_event=0, events=[1, 0], start_step=5,
    steps_per_bar=4, steps_per_quarter=1)] *)
Definition ones_and_zeros : Simple.t pyval :=
  Simple.__init__ (PyInt 0) (Some [PyInt 1; PyInt 0]) 5 4 1.

(** Run-length encoded sequences with cap 2 that start at step 0:
    [('A', 2), ('B', 1)]; [('A', 1), ('A', 1)], as two calls of [append]
    leave it; [('A', 2), ('A', 1)]; and [('A', 2)] under a cap of 0, as the
    constructor builds it. *)
Definition runs_AAB : RLE.t pyval := rle_of [(A_, 2); (B_, 1)] 2 0.
Definition runs_A_A : RLE.t pyval := rle_of [(A_, 1); (A_, 1)] 2 0.
Definition runs_AAA : RLE.t pyval := rle_of [(A_, 2); (A_, 1)] 2 0.
Definition runs_cap_zero : RLE.t pyval := rle_of [(A_, 2)] 0 0.

(** ['A', 'B', 'C'] from step 9, padded with ['_'], and the same events
    padded with [0]. *)
Definition simple_ABC : Simple.t pyval := simple_of [A_; B_; C_] 9.
Definition simple_ABC_pad_0 : Simple.t pyval :=
  Simple.__init__ (PyInt 0) (Some [A_; B_; C_]) 9 16 4.

(** ** Lists, sums and comparisons *)

Section Basics.
Context {E : Type} `{PyEvent E}.

Lemma py_ne_true (a b : E) : py_ne a b = true <-> a <> b.
Proof.
  unfold py_ne. destruct (py_eq_dec a b); split; intros; congruence.
Qed.

Lemma py_ne_false (a b : E) : py_ne a b = false <-> a = b.
Proof.
  unfold py_ne. destruct (py_eq_dec a b); split; intros; congruence.
Qed.

Lemma gtb_true (a b : Z) : (a >? b) = true <-> b < a.
Proof. rewrite Z.gtb_ltb. apply Z.ltb_lt. Qed.

Lemma gtb_false (a b : Z) : (a >? b) = false <-> a <= b.
Proof. rewrite Z.gtb_ltb. apply Z.ltb_ge. Qed.

Lemma geb_true (a b : Z) : (a >=? b) = true <-> b <= a.
Proof. rewrite Z.geb_leb. apply Z.leb_le. Qed.

Lemma geb_false (a b : Z) : (a >=? b) = false <-> a < b.
Proof. rewrite Z.geb_leb. apply Z.leb_gt. Qed.

Lemma py_last_nil {A : Type} : py_last (@nil A) = None.
Proof. reflexivity. Qed.

Lemma py_last_snoc {A : Type} (l : list A) (x : A) : py_last (l ++ [x]) = Some x.
Proof. unfold py_last. rewrite rev_app_distr. reflexivity. Qed.

Lemma py_last_none {A : Type} (l : list A) : py_last l = None -> l = [].
Proof.
  destruct l as [|a l] using rev_ind; [reflexivity|].
  rewrite py_last_snoc. discriminate.
Qed.

Lemma py_last_some {A : Type} (l : list A) (x : A) :
  py_last l = Some x -> l = removelast l ++ [x].
Proof.
  destruct l as [|a l _] using rev_ind; [discriminate|].
  rewrite py_last_snoc. intros [= ->]. now rewrite removelast_last.
Qed.

Lemma sum_from (l : list (E * Z)) (a : Z) :
  fold_left (fun total run => total + snd run) l a
  = a + fold_left (fun total run => total + snd run) l 0.
Proof.
  revert a. induction l as [|r l IH]; intros a; simpl; [lia|].
  rewrite (IH (a + snd r)), (IH (snd r)). lia.
Qed.

Lemma expand_app (l1 l2 : list (E * Z)) :
  expand (l1 ++ l2) = expand l1 ++ expand l2.
Proof. unfold expand. apply flat_map_app. Qed.

Lemma expand_one (e : E) (n : Z) : expand [(e, n)] = repeat e (Z.to_nat n).
Proof. unfold expand. simpl. apply app_nil_r. Qed.

Lemma repeat_add (e : E) (a b : Z) :
  0 <= a -> 0 <= b ->
  repeat e (Z.to_nat (a + b)) = repeat e (Z.to_nat a) ++ repeat e (Z.to_nat b).
Proof.
  intros Ha Hb. rewrite Z2Nat.inj_add by assumption. apply repeat_app.
Qed.

Lemma runs_bounded_app (m : Z) (l1 l2 : list (E * Z)) :
  runs_bounded m (l1 ++ l2) <-> runs_bounded m l1 /\ runs_bounded m l2.
Proof. apply Forall_app. Qed.

Lemma runs_bounded_one (m : Z) (e : E) (n : Z) :
  runs_bounded m [(e, n)] <-> 1 <= n <= m.
Proof.
  split; intros Hn.
  - now inversion Hn.
  - constructor; [exact Hn | constructor].
Qed.

Lemma canonical_snoc (m : Z) (l : list (E * Z)) (x : E * Z) :
  canonical m (l ++ [x]) <->
  canonical m l
  /\ (forall y, py_last l = Some y -> fst y = fst x -> snd y = m).
Proof.
  induction l as [|a l IH].
  - simpl. split; [intros _; split; [exact I | discriminate] | intros _; exact I].
  - destruct l as [|b l].
    + simpl. split.
      * intros [Hab _]. split; [exact I|]. intros y [= <-]. exact Hab.
      * intros [_ Hl]. split; [|exact I]. apply Hl. reflexivity.
    + change ((a :: b :: l) ++ [x]) with (a :: (b :: l) ++ [x]).
      change (canonical m (a :: (b :: l) ++ [x]))
        with ((fst a = fst b -> snd a = m) /\ canonical m ((b :: l) ++ [x])).
      change (canonical m (a :: b :: l))
        with ((fst a = fst b -> snd a = m) /\ canonical m (b :: l)).
      assert (Hlast : py_last (a :: b :: l) = py_last (b :: l)).
      { unfold py_last. simpl. destruct (rev l ++ [b]) eqn:Hr.
        - destruct (rev l); discriminate.
        - reflexivity. }
      rewrite Hlast. tauto.
Qed.

End Basics.

(** ** The encoding loop of the constructor *)

Section Encoding.
Context {E : Type} `{PyEvent E}.

Lemma encode_loop_expand (m : Z) (base : list E) :
  forall events ce cr events' ce' cr',
    0 <= cr ->
    RLE.encode_loop m base events ce cr = (events', ce', cr') ->
    0 <= cr'
    /\ expand events' ++ repeat ce' (Z.to_nat cr')
       = expand events ++ repeat ce (Z.to_nat cr) ++ base.
Proof.
  induction base as [|event base IH]; intros events ce cr events' ce' cr' Hcr Hloop.
  - simpl in Hloop. injection Hloop as <- <- <-.
    split; [assumption | now rewrite app_nil_r].
  - simpl in Hloop.
    destruct (py_ne event ce || (cr =? m)) eqn:Hnew.
    + apply IH in Hloop; [|lia]. destruct Hloop as [Hcr' Heq].
      split; [assumption|]. rewrite Heq.
      destruct (cr >? 0) eqn:Hpos.
      * rewrite expand_app, expand_one, <- !app_assoc. reflexivity.
      * apply gtb_false in Hpos. replace cr with 0 by lia. reflexivity.
    + apply orb_false_iff in Hnew. destruct Hnew as [Hsame _].
      apply py_ne_false in Hsame. subst event.
      apply IH in Hloop; [|lia]. destruct Hloop as [Hcr' Heq].
      split; [assumption|]. rewrite Heq, repeat_add by lia.
      rewrite <- !app_assoc. reflexivity.
Qed.

Lemma encode_loop_positive (m : Z) (base : list E) :
  forall events ce cr events' ce' cr',
    Forall (fun run => 1 <= snd run) events ->
    RLE.encode_loop m base events ce cr = (events', ce', cr') ->
    Forall (fun run => 1 <= snd run) events'.
Proof.
  induction base as [|event base IH]; intros events ce cr events' ce' cr' Hev Hloop.
  - simpl in Hloop. now injection Hloop as <- <- <-.
  - simpl in Hloop.
    destruct (py_ne event ce || (cr =? m)).
    + apply IH in Hloop; [assumption|].
      destruct (cr >? 0) eqn:Hpos; [|assumption].
      apply gtb_true in Hpos. apply Forall_app. split; [assumption|].
      constructor; [simpl; lia | constructor].
    + apply IH in Hloop; assumption.
Qed.

Lemma encode_loop_bounded (m : Z) (base : list E) :
  forall events ce cr events' ce' cr',
    1 <= m -> 0 <= cr <= m -> runs_bounded m events ->
    RLE.encode_loop m base events ce cr = (events', ce', cr') ->
    runs_bounded m events' /\ 0 <= cr' <= m.
Proof.
  induction base as [|event base IH];
    intros events ce cr events' ce' cr' Hm Hcr Hev Hloop.
  - simpl in Hloop. injection Hloop as <- <- <-. now split.
  - simpl in Hloop.
    destruct (py_ne event ce || (cr =? m)) eqn:Hnew.
    + apply IH in Hloop; [assumption | assumption | lia |].
      destruct (cr >? 0) eqn:Hpos; [|assumption].
      apply gtb_true in Hpos. apply runs_bounded_app. split; [assumption|].
      apply runs_bounded_one. lia.
    + apply orb_false_iff in Hnew. destruct Hnew as [_ Hcap].
      apply Z.eqb_neq in Hcap.
      apply IH in Hloop; [assumption | assumption | lia | assumption].
Qed.

Lemma encode_loop_canonical (m : Z) (base : list E) :
  forall events ce cr events' ce' cr',
    canonical m events -> last_run_closed m events ce cr ->
    RLE.encode_loop m base events ce cr = (events', ce', cr') ->
    canonical m events' /\ last_run_closed m events' ce' cr'.
Proof.
  induction base as [|event base IH];
    intros events ce cr events' ce' cr' Hcan Hlast Hloop.
  - simpl in Hloop. injection Hloop as <- <- <-. now split.
  - simpl in Hloop.
    destruct (py_ne event ce || (cr =? m)) eqn:Hnew.
    + apply IH in Hloop; [assumption | |].
      * destruct (cr >? 0) eqn:Hpos; [|assumption].
        apply canonical_snoc. split; [assumption|].
        intros y Hy Hfst. destruct (Hlast y Hy) as [Hfull | [Hne _]];
          [assumption | contradiction].
      * destruct (cr >? 0) eqn:Hpos.
        -- intros y Hy. rewrite py_last_snoc in Hy. injection Hy as <-. simpl.
           apply orb_true_iff in Hnew. destruct Hnew as [Hne | Hcap].
           ++ right. apply py_ne_true in Hne. split; [congruence | lia].
           ++ left. now apply Z.eqb_eq.
        -- apply gtb_false in Hpos. intros y Hy.
           destruct (Hlast y Hy) as [Hfull | [_ Hgt]]; [now left | lia].
    + apply orb_false_iff in Hnew. destruct Hnew as [Hsame _].
      apply py_ne_false in Hsame. subst event.
      apply IH in Hloop; [assumption | assumption |].
      intros y Hy. destruct (Hlast y Hy) as [Hfull | [Hne Hgt]];
        [now left | right; split; [assumption | lia]].
Qed.

(** The constructor applied to a [SimpleEventSequence]: it returns, whatever
    [max_run_length] is, and these are the runs it stores. *)
Lemma init_runs (base : Simple.t E) (m : Z) :
  exists events,
    RLE.__init__ (RLE.IsSimple base) m
    = Ok (RLE.mk (Simple._pad_event base) m events
                 (Simple._start_step base) (Simple._steps_per_quarter base))
    /\ expand events = Simple._events base
    /\ Forall (fun run => 1 <= snd run) events
    /\ canonical m events
    /\ (1 <= m -> runs_bounded m events).
Proof.
  unfold RLE.__init__, Simple.__iter__, Simple.pad_event, Simple.start_step,
    Simple.steps_per_quarter.
  destruct (RLE.encode_loop m (Simple._events base) [] py_None 0)
    as [[events ce] cr] eqn:Hloop.
  destruct (encode_loop_expand _ _ _ _ _ _ _ _ (Z.le_refl 0) Hloop) as [Hcr Hexp].
  pose proof (encode_loop_positive _ _ _ _ _ _ _ _ (Forall_nil _) Hloop) as Hpos.
  assert (Hcan : canonical m events /\ last_run_closed m events ce cr).
  { apply (encode_loop_canonical m (Simple._events base) [] py_None 0);
      [exact I | intros y Hy; discriminate | exact Hloop]. }
  destruct Hcan as [Hcan Hlast].
  simpl in Hexp.
  destruct (cr >? 0) eqn:Hgt.
  - apply gtb_true in Hgt.
    exists (events ++ [(ce, cr)]). split; [reflexivity|].
    split; [now rewrite expand_app, expand_one|].
    split; [apply Forall_app; split; [assumption | constructor; [simpl; lia | constructor]]|].
    split.
    + apply canonical_snoc. split; [assumption|].
      intros y Hy Hfst. destruct (Hlast y Hy) as [Hfull | [Hne _]];
        [assumption | contradiction].
    + intros Hm. assert (Hzero : 0 <= 0 <= m) by lia.
      destruct (encode_loop_bounded _ _ _ _ _ _ _ _ Hm Hzero (Forall_nil _) Hloop)
        as [Hb Hcrm].
      apply runs_bounded_app. split; [assumption|]. apply runs_bounded_one. lia.
  - apply gtb_false in Hgt. replace cr with 0 in Hexp by lia.
    simpl in Hexp. rewrite app_nil_r in Hexp.
    exists events. split; [reflexivity|].
    split; [assumption|]. split; [assumption|]. split; [assumption|].
    intros Hm. assert (Hzero : 0 <= 0 <= m) by lia.
    apply (encode_loop_bounded _ _ _ _ _ _ _ _ Hm Hzero (Forall_nil _) Hloop).
Qed.

End Encoding.

(** ** Standardization *)

Section Standardization.
Context {E : Type} `{PyEvent E}.

(** Appending the run being counted, when it is not empty. *)
Lemma flush_expand (new : list (E * Z)) (ce : E) (cr : Z) :
  0 <= cr ->
  expand (if cr >? 0 then new ++ [(ce, cr)] else new)
  = expand new ++ repeat ce (Z.to_nat cr).
Proof.
  intros Hcr. destruct (cr >? 0) eqn:Hpos.
  - now rewrite expand_app, expand_one.
  - apply gtb_false in Hpos. replace cr with 0 by lia.
    simpl. now rewrite app_nil_r.
Qed.

Lemma flush_bounded (m : Z) (new : list (E * Z)) (ce : E) (cr : Z) :
  cr <= m -> runs_bounded m new ->
  runs_bounded m (if cr >? 0 then new ++ [(ce, cr)] else new).
Proof.
  intros Hcr Hnew. destruct (cr >? 0) eqn:Hpos; [|assumption].
  apply gtb_true in Hpos. apply runs_bounded_app. split; [assumption|].
  apply runs_bounded_one. lia.
Qed.

Lemma flush_canonical (m : Z) (new : list (E * Z)) (ce : E) (cr : Z) :
  canonical m new -> last_run_closed m new ce cr ->
  canonical m (if cr >? 0 then new ++ [(ce, cr)] else new).
Proof.
  intros Hcan Hlast. destruct (cr >? 0); [|assumption].
  apply canonical_snoc. split; [assumption|].
  intros y Hy Hfst. destruct (Hlast y Hy) as [Hfull | [Hne _]];
    [assumption | contradiction].
Qed.

(** After the run being counted is appended and another event starts, the
    run appended last is closed for that event as soon as it has a step. *)
Lemma flush_closed (m : Z) (new : list (E * Z)) (ce event : E) (cr n : Z) :
  last_run_closed m new ce cr -> event <> ce -> 0 < n ->
  last_run_closed m (if cr >? 0 then new ++ [(ce, cr)] else new) event n.
Proof.
  intros Hlast Hne Hn y Hy. destruct (cr >? 0) eqn:Hpos.
  - rewrite py_last_snoc in Hy. injection Hy as <-. simpl.
    right. split; [congruence | assumption].
  - apply gtb_false in Hpos.
    destruct (Hlast y Hy) as [Hfull | [_ Hgt]]; [now left | lia].
Qed.

Lemma emit_closed (m : Z) (new : list (E * Z)) (ce : E) (cr : Z) :
  last_run_closed m (new ++ [(ce, m)]) ce cr.
Proof.
  intros y Hy. rewrite py_last_snoc in Hy. injection Hy as <-. now left.
Qed.

Lemma standardize_loop_content (m : Z) (events : list (E * Z)) :
  forall new ce cr new' ce' cr',
    1 <= m -> 0 <= cr < m ->
    runs_bounded m events -> runs_bounded m new ->
    RLE.standardize_loop m events new ce cr = (new', ce', cr') ->
    runs_bounded m new' /\ 0 <= cr' < m
    /\ expand new' ++ repeat ce' (Z.to_nat cr')
       = expand new ++ repeat ce (Z.to_nat cr) ++ expand events.
Proof.
  induction events as [|[event rl] events IH];
    intros new ce cr new' ce' cr' Hm Hcr Hev Hnew Hloop.
  - simpl in Hloop. injection Hloop as <- <- <-.
    split; [assumption|]. split; [assumption|]. simpl. now rewrite app_nil_r.
  - inversion Hev as [|? ? Hrl Hev']; subst. simpl in Hrl.
    change (expand ((event, rl) :: events))
      with (repeat event (Z.to_nat rl) ++ expand events).
    simpl in Hloop.
    destruct (py_ne event ce) eqn:Hchange.
    + pose proof (flush_expand new ce cr ltac:(lia)) as Hfx.
      pose proof (flush_bounded m new ce cr ltac:(lia) Hnew) as Hfb.
      destruct (0 + rl >=? m) eqn:Hfull.
      * apply geb_true in Hfull.
        apply IH in Hloop; [| assumption | lia | assumption |].
        -- destruct Hloop as (Hb & Hc & Hx). split; [assumption|].
           split; [assumption|]. rewrite Hx, expand_app, expand_one, Hfx.
           replace (Z.to_nat rl) with (Z.to_nat (m + (0 + rl - m))) by lia.
           rewrite repeat_add by lia. now rewrite <- !app_assoc.
        -- apply runs_bounded_app. split; [assumption|].
           apply runs_bounded_one. lia.
      * apply geb_false in Hfull.
        apply IH in Hloop; [| assumption | lia | assumption | assumption].
        destruct Hloop as (Hb & Hc & Hx). split; [assumption|].
        split; [assumption|]. rewrite Hx, Hfx. simpl (0 + rl).
        now rewrite <- !app_assoc.
    + apply py_ne_false in Hchange. subst event.
      destruct (cr + rl >=? m) eqn:Hfull.
      * apply geb_true in Hfull.
        apply IH in Hloop; [| assumption | lia | assumption |].
        -- destruct Hloop as (Hb & Hc & Hx). split; [assumption|].
           split; [assumption|]. rewrite Hx, expand_app, expand_one.
           rewrite <- !app_assoc. f_equal.
           rewrite !app_assoc. f_equal.
           rewrite <- !repeat_add by lia. f_equal. lia.
        -- apply runs_bounded_app. split; [assumption|].
           apply runs_bounded_one. lia.
      * apply geb_false in Hfull.
        apply IH in Hloop; [| assumption | lia | assumption | assumption].
        destruct Hloop as (Hb & Hc & Hx). split; [assumption|].
        split; [assumption|]. rewrite Hx, repeat_add by lia.
        now rewrite <- !app_assoc.
Qed.

Lemma runs_bounded_full_or_positive (m : Z) (events : list (E * Z)) :
  runs_bounded m events -> runs_full_or_positive m events.
Proof.
  intros Hb. eapply Forall_impl; [|exact Hb]. simpl. intros run Hrun. lia.
Qed.

Lemma standardize_loop_canonical (m : Z) (events : list (E * Z)) :
  forall new ce cr new' ce' cr',
    0 <= cr ->
    runs_full_or_positive m events ->
    canonical m new -> last_run_closed m new ce cr ->
    RLE.standardize_loop m events new ce cr = (new', ce', cr') ->
    canonical m new' /\ last_run_closed m new' ce' cr'.
Proof.
  induction events as [|[event rl] events IH];
    intros new ce cr new' ce' cr' Hcr Hev Hcan Hlast Hloop.
  - simpl in Hloop. injection Hloop as <- <- <-. now split.
  - inversion Hev as [|? ? Hrl Hev']; subst. simpl in Hrl.
    simpl in Hloop.
    destruct (py_ne event ce) eqn:Hchange.
    + apply py_ne_true in Hchange.
      pose proof (flush_canonical m new ce cr Hcan Hlast) as Hfc.
      destruct (0 + rl >=? m) eqn:Hfull.
      * apply geb_true in Hfull.
        apply IH in Hloop; [assumption | lia | assumption | | apply emit_closed].
        apply canonical_snoc. split; [assumption|].
        intros y Hy Hfst.
        destruct (flush_closed m new ce event cr 1 Hlast Hchange Z.lt_0_1 y Hy)
          as [Hm | [Hne _]]; [assumption | contradiction].
      * apply geb_false in Hfull.
        apply IH in Hloop; [assumption | lia | assumption | assumption |].
        simpl (0 + rl). apply flush_closed; [assumption | assumption | lia].
    + apply py_ne_false in Hchange. subst event.
      destruct (cr + rl >=? m) eqn:Hfull.
      * apply geb_true in Hfull.
        apply IH in Hloop; [assumption | lia | assumption | | apply emit_closed].
        apply canonical_snoc. split; [assumption|].
        intros y Hy Hfst. destruct (Hlast y Hy) as [Hm | [Hne _]];
          [assumption | contradiction].
      * apply geb_false in Hfull.
        apply IH in Hloop; [assumption | lia | assumption | assumption |].
        intros y Hy. destruct (Hlast y Hy) as [Hm | [Hne _]];
          [now left | right; split; [assumption | lia]].
Qed.

Lemma standardize_loop_full_or_positive (m : Z) (events : list (E * Z)) :
  forall new ce cr new' ce' cr',
    runs_full_or_positive m new ->
    RLE.standardize_loop m events new ce cr = (new', ce', cr') ->
    runs_full_or_positive m new'.
Proof.
  assert (Hflush : forall (new : list (E * Z)) (ce : E) (cr : Z),
             runs_full_or_positive m new ->
             runs_full_or_positive m
               (if cr >? 0 then new ++ [(ce, cr)] else new)).
  { intros new ce cr Hnew. destruct (cr >? 0) eqn:Hpos; [|assumption].
    apply gtb_true in Hpos. apply Forall_app. split; [assumption|].
    constructor; [simpl; lia | constructor]. }
  assert (Hemit : forall (new : list (E * Z)) (ce : E),
             runs_full_or_positive m new ->
             runs_full_or_positive m (new ++ [(ce, m)])).
  { intros new ce Hnew. apply Forall_app. split; [assumption|].
    constructor; [now left | constructor]. }
  induction events as [|[event rl] events IH];
    intros new ce cr new' ce' cr' Hnew Hloop.
  - simpl in Hloop. now injection Hloop as <- <- <-.
  - simpl in Hloop.
    destruct (py_ne event ce).
    + destruct (0 + rl >=? m); apply IH in Hloop; auto.
    + destruct (cr + rl >=? m); apply IH in Hloop; auto.
Qed.

(** [_standardize_run_lengths] whatever the cap is: the run list it stores is
    canonical as soon as every run it finds is full or has a step. *)
Lemma standardize_canonical (self : RLE.t E) :
  runs_full_or_positive (RLE._max_run_length self) (RLE._events self) ->
  runs_full_or_positive (RLE._max_run_length self)
    (RLE._events (RLE._standardize_run_lengths self))
  /\ canonical (RLE._max_run_length self)
       (RLE._events (RLE._standardize_run_lengths self)).
Proof.
  intros Hev. unfold RLE._standardize_run_lengths.
  destruct (RLE.standardize_loop (RLE._max_run_length self) (RLE._events self)
              [] py_None 0) as [[new ce] cr] eqn:Hloop.
  pose proof (standardize_loop_full_or_positive _ _ _ _ _ _ _ _
                (Forall_nil _) Hloop) as Hfp.
  destruct (standardize_loop_canonical (RLE._max_run_length self)
              (RLE._events self) [] py_None 0 new ce cr) as [Hcan Hlast];
    [lia | exact Hev | exact I | intros y Hy; discriminate | exact Hloop |].
  cbn [RLE.set_events RLE._events]. split.
  - destruct (cr >? 0) eqn:Hpos; [|assumption].
    apply gtb_true in Hpos. apply Forall_app. split; [assumption|].
    constructor; [simpl; lia | constructor].
  - now apply flush_canonical.
Qed.

(** [_standardize_run_lengths] on a well-formed object: the fields it leaves
    alone, and what holds of the run list it stores. *)
Lemma standardize_spec (self : RLE.t E) :
  well_formed self ->
  exists new_events,
    RLE._standardize_run_lengths self = RLE.set_events self new_events
    /\ runs_bounded (RLE._max_run_length self) new_events
    /\ canonical (RLE._max_run_length self) new_events
    /\ expand new_events = expand (RLE._events self).
Proof.
  intros [Hm Hev]. unfold RLE._standardize_run_lengths.
  destruct (RLE.standardize_loop (RLE._max_run_length self) (RLE._events self)
              [] py_None 0) as [[new ce] cr] eqn:Hloop.
  assert (Hzero : 0 <= 0 < RLE._max_run_length self) by lia.
  destruct (standardize_loop_content _ _ _ _ _ _ _ _ Hm
              Hzero Hev (Forall_nil _) Hloop) as (Hb & Hcr & Hx).
  destruct (standardize_loop_canonical (RLE._max_run_length self)
              (RLE._events self) [] py_None 0 new ce cr) as [Hcan Hlast].
  - lia.
  - now apply runs_bounded_full_or_positive.
  - exact I.
  - intros y Hy. discriminate.
  - exact Hloop.
  - eexists. split; [reflexivity|].
    split; [apply flush_bounded; [lia | assumption]|].
    split; [apply flush_canonical; assumption|].
    rewrite flush_expand by lia. exact Hx.
Qed.

End Standardization.

(** ** Resizing *)

Section Resizing.
Context {E : Type} `{PyEvent E}.

Lemma well_formed_set_events (self : RLE.t E) (events : list (E * Z)) :
  well_formed (RLE.set_events self events)
  <-> 1 <= RLE._max_run_length self
      /\ runs_bounded (RLE._max_run_length self) events.
Proof. reflexivity. Qed.

Lemma well_formed_set_start_step (self : RLE.t E) (start_step : Z) :
  well_formed (RLE.set_start_step self start_step) <-> well_formed self.
Proof. reflexivity. Qed.

Lemma padding_loop_bounded (fuel : nat) (self : RLE.t E) :
  forall steps events padded,
    runs_bounded (RLE._max_run_length self) events ->
    1 <= RLE._max_run_length self ->
    RLE.padding_loop fuel self steps events = Some padded ->
    runs_bounded (RLE._max_run_length self) padded.
Proof.
  induction fuel as [|fuel IH]; intros steps events padded Hev Hm Hloop;
    simpl in Hloop; [discriminate|].
  destruct (steps >? 0) eqn:Hpos.
  - apply gtb_true in Hpos. apply IH in Hloop; [assumption | | assumption].
    apply runs_bounded_app. split; [assumption|].
    apply runs_bounded_one. lia.
  - now injection Hloop as <-.
Qed.

Lemma padding_loop_returns (fuel : nat) (self : RLE.t E) :
  forall steps events,
    1 <= RLE._max_run_length self ->
    (Z.to_nat steps < fuel)%nat ->
    exists padded, RLE.padding_loop fuel self steps events = Some padded.
Proof.
  induction fuel as [|fuel IH]; intros steps events Hm Hfuel; [lia|].
  simpl. destruct (steps >? 0) eqn:Hpos.
  - apply gtb_true in Hpos. apply IH; [assumption | lia].
  - eexists. reflexivity.
Qed.

Lemma padding_loop_full_or_positive (fuel : nat) (self : RLE.t E) :
  forall steps events padded,
    runs_full_or_positive (RLE._max_run_length self) events ->
    RLE.padding_loop fuel self steps events = Some padded ->
    runs_full_or_positive (RLE._max_run_length self) padded.
Proof.
  induction fuel as [|fuel IH]; intros steps events padded Hev Hloop;
    simpl in Hloop; [discriminate|].
  destruct (steps >? 0) eqn:Hpos.
  - apply gtb_true in Hpos. apply IH in Hloop; [assumption|].
    apply Forall_app. split; [assumption|].
    constructor; [simpl; lia | constructor].
  - now injection Hloop as <-.
Qed.

(** The two removal loops keep every property of runs that survives
    shortening a run, and they raise on an empty run list only. *)
Section Removal.
Variable P : E * Z -> Prop.
Hypothesis P_shortened :
  forall event run_length steps,
    P (event, run_length) -> 0 < steps < run_length ->
    P (event, run_length - steps).

Lemma shrink_left_loop_keeps (fuel : nat) :
  forall (self : RLE.t E) steps_to_remove out,
    Forall P (RLE._events self) ->
    RLE.shrink_left_loop fuel self steps_to_remove = Some out ->
    Forall P (RLE._events (state_of out))
    /\ (raised out = true -> RLE._events (state_of out) = []).
Proof.
  induction fuel as [|fuel IH]; intros self rem out Hev Hloop;
    simpl in Hloop; [discriminate|].
  destruct (rem >? 0) eqn:Hpos.
  - apply gtb_true in Hpos.
    destruct (RLE._events self) as [|[event rl] following] eqn:Hruns.
    + injection Hloop as <-. simpl. rewrite Hruns. now split.
    + inversion Hev as [|? ? Hrun Hev']; subst.
      destruct (rl >? rem) eqn:Hcmp.
      * apply gtb_true in Hcmp. apply IH in Hloop; [assumption|].
        cbn [RLE.set_events RLE._events].
        constructor; [apply P_shortened; [assumption | lia] | assumption].
      * apply IH in Hloop; [assumption|]. exact Hev.
  - injection Hloop as <-. simpl. split; [assumption | discriminate].
Qed.

Lemma shrink_right_loop_keeps (fuel : nat) :
  forall (self : RLE.t E) steps_to_remove out,
    Forall P (RLE._events self) ->
    RLE.shrink_right_loop fuel self steps_to_remove = Some out ->
    Forall P (RLE._events (state_of out))
    /\ (raised out = true -> RLE._events (state_of out) = []).
Proof.
  induction fuel as [|fuel IH]; intros self rem out Hev Hloop;
    simpl in Hloop; [discriminate|].
  destruct (rem >? 0) eqn:Hpos.
  - apply gtb_true in Hpos.
    destruct (py_last (RLE._events self)) as [[event rl]|] eqn:Hlast.
    + apply py_last_some in Hlast.
      rewrite Hlast in Hev. apply Forall_app in Hev.
      destruct Hev as [Hfront Hrun]. inversion Hrun as [|? ? Hrun' _]; subst.
      destruct (rl >? rem) eqn:Hcmp.
      * apply gtb_true in Hcmp. apply IH in Hloop; [assumption|].
        cbn [RLE.set_events RLE._events]. apply Forall_app.
        split; [assumption|].
        constructor; [apply P_shortened; [assumption | lia] | constructor].
      * apply IH in Hloop; [assumption|]. exact Hfront.
    + injection Hloop as <-. simpl. split; [assumption|].
      intros _. now apply py_last_none.
  - injection Hloop as <-. simpl. split; [assumption | discriminate].
Qed.

End Removal.

Lemma bounded_shortened (m : Z) (event : E) (run_length steps : Z) :
  1 <= snd (event, run_length) <= m -> 0 < steps < run_length ->
  1 <= snd (event, run_length - steps) <= m.
Proof. simpl. lia. Qed.

Lemma full_or_positive_shortened (m : Z) (event : E) (run_length steps : Z) :
  snd (event, run_length) = m \/ 1 <= snd (event, run_length) ->
  0 < steps < run_length ->
  snd (event, run_length - steps) = m \/ 1 <= snd (event, run_length - steps).
Proof. simpl. lia. Qed.

Lemma shrink_left_loop_returns (fuel : nat) :
  forall (self : RLE.t E) steps_to_remove,
    well_formed self ->
    (Z.to_nat steps_to_remove < fuel)%nat ->
    exists out, RLE.shrink_left_loop fuel self steps_to_remove = Some out.
Proof.
  induction fuel as [|fuel IH]; intros self rem Hwf Hfuel; [lia|].
  simpl. destruct (rem >? 0) eqn:Hpos; [|eexists; reflexivity].
  apply gtb_true in Hpos.
  destruct (RLE._events self) as [|[event rl] following] eqn:Hev;
    [eexists; reflexivity|].
  destruct Hwf as [Hm Hb]. pose proof Hb as Hb0. rewrite Hev in Hb.
  inversion Hb as [|? ? Hrl Hb']; subst. simpl in Hrl.
  destruct (rl >? rem) eqn:Hcmp.
  - apply gtb_true in Hcmp. apply IH; [|lia].
    apply well_formed_set_events. split; [assumption|].
    constructor; [simpl; lia | assumption].
  - apply gtb_false in Hcmp. apply IH; [|lia].
    apply well_formed_set_events. now split.
Qed.

Lemma shrink_right_loop_returns (fuel : nat) :
  forall (self : RLE.t E) steps_to_remove,
    (0 < fuel)%nat ->
    (0 < steps_to_remove -> (length (RLE._events self) + 1 < fuel)%nat) ->
    exists out, RLE.shrink_right_loop fuel self steps_to_remove = Some out.
Proof.
  induction fuel as [|fuel IH]; intros self rem Hfuel Hlength; [lia|].
  simpl. destruct (rem >? 0) eqn:Hpos; [|eexists; reflexivity].
  apply gtb_true in Hpos. specialize (Hlength Hpos).
  destruct (py_last (RLE._events self)) as [[event rl]|] eqn:Hlast;
    [|eexists; reflexivity].
  apply py_last_some in Hlast.
  assert (Hlen : length (RLE._events self)
                 = S (length (removelast (RLE._events self)))).
  { rewrite Hlast at 1. rewrite length_app. simpl. lia. }
  destruct (rl >? rem); apply IH; simpl; try lia.
Qed.

(** [max_run_length] is fixed at construction. *)
Lemma standardize_max_run_length (self : RLE.t E) :
  RLE._max_run_length (RLE._standardize_run_lengths self)
  = RLE._max_run_length self.
Proof.
  unfold RLE._standardize_run_lengths.
  destruct (RLE.standardize_loop _ _ _ _ _) as [[new ce] cr]. reflexivity.
Qed.

Lemma shrink_left_loop_max_run_length (fuel : nat) :
  forall (self : RLE.t E) steps_to_remove out,
    RLE.shrink_left_loop fuel self steps_to_remove = Some out ->
    RLE._max_run_length (state_of out) = RLE._max_run_length self.
Proof.
  induction fuel as [|fuel IH]; intros self rem out Hloop;
    simpl in Hloop; [discriminate|].
  destruct (rem >? 0); [|now injection Hloop as <-].
  destruct (RLE._events self) as [|[event rl] following];
    [now injection Hloop as <-|].
  destruct (rl >? rem); apply IH in Hloop; exact Hloop.
Qed.

Lemma shrink_right_loop_max_run_length (fuel : nat) :
  forall (self : RLE.t E) steps_to_remove out,
    RLE.shrink_right_loop fuel self steps_to_remove = Some out ->
    RLE._max_run_length (state_of out) = RLE._max_run_length self.
Proof.
  induction fuel as [|fuel IH]; intros self rem out Hloop;
    simpl in Hloop; [discriminate|].
  destruct (rem >? 0); [|now injection Hloop as <-].
  destruct (py_last (RLE._events self)) as [[event rl]|];
    [|now injection Hloop as <-].
  destruct (rl >? rem); apply IH in Hloop; exact Hloop.
Qed.

Lemma standardize_well_formed (self : RLE.t E) :
  well_formed self -> well_formed (RLE._standardize_run_lengths self).
Proof.
  intros Hwf. destruct (standardize_spec self Hwf) as (new & -> & Hb & _).
  destruct Hwf as [Hm _]. apply well_formed_set_events. now split.
Qed.

(** Whatever [set_length] does when it is over, returning or raising, the
    run list it leaves is canonical, and its runs are full or have a step. *)
Lemma set_length_canonical_any_cap (fuel : nat) (self : RLE.t E) (steps : Z)
    (from_left : bool) (out : outcome (RLE.t E)) :
  runs_full_or_positive (RLE._max_run_length self) (RLE._events self) ->
  RLE.set_length fuel self steps from_left = Some out ->
  runs_full_or_positive (RLE._max_run_length self) (RLE._events (state_of out))
  /\ canonical (RLE._max_run_length self) (RLE._events (state_of out)).
Proof.
  intros Hev Hcall. unfold RLE.set_length in Hcall.
  destruct (steps >? RLE.num_steps self).
  - unfold RLE._padding in Hcall. destruct from_left.
    + destruct (RLE.padding_loop fuel _ _ []) as [padding|] eqn:Hpad;
        [|discriminate].
      apply padding_loop_full_or_positive in Hpad; [|constructor].
      injection Hcall as <-.
      apply (standardize_canonical
               (RLE.set_events (RLE.set_start_step self _) _)).
      apply Forall_app. split; [exact Hpad | exact Hev].
    + destruct (RLE.padding_loop fuel _ _ []) as [padding|] eqn:Hpad;
        [|discriminate].
      apply padding_loop_full_or_positive in Hpad; [|constructor].
      injection Hcall as <-.
      apply (standardize_canonical (RLE.set_events self _)).
      apply Forall_app. split; [exact Hev | exact Hpad].
  - destruct from_left.
    + destruct (RLE.shrink_left_loop fuel _ _) as [[self'|e self']|] eqn:Hloop;
        [| |discriminate]; injection Hcall as <-;
        pose proof (shrink_left_loop_max_run_length _ _ _ _ Hloop) as Hcap;
        apply (shrink_left_loop_keeps
                 (fun run => snd run = RLE._max_run_length self \/ 1 <= snd run)
                 (full_or_positive_shortened (RLE._max_run_length self))) in Hloop;
        try exact Hev; destruct Hloop as [Hev' Hraised]; simpl in *.
      * rewrite <- Hcap. apply standardize_canonical. now rewrite Hcap.
      * split; [assumption|]. rewrite Hraised by reflexivity. exact I.
    + destruct (RLE.shrink_right_loop fuel _ _) as [[self'|e self']|] eqn:Hloop;
        [| |discriminate]; injection Hcall as <-;
        pose proof (shrink_right_loop_max_run_length _ _ _ _ Hloop) as Hcap;
        apply (shrink_right_loop_keeps
                 (fun run => snd run = RLE._max_run_length self \/ 1 <= snd run)
                 (full_or_positive_shortened (RLE._max_run_length self))) in Hloop;
        try exact Hev; destruct Hloop as [Hev' Hraised]; simpl in *.
      * rewrite <- Hcap. apply standardize_canonical. now rewrite Hcap.
      * split; [assumption|]. rewrite Hraised by reflexivity. exact I.
Qed.

(** Under a cap of at least 1 it keeps the class invariant as well. *)
Lemma set_length_sound (fuel : nat) (self : RLE.t E) (steps : Z)
    (from_left : bool) (out : outcome (RLE.t E)) :
  well_formed self ->
  RLE.set_length fuel self steps from_left = Some out ->
  well_formed (state_of out).
Proof.
  intros Hwf Hcall. pose proof Hwf as [Hm Hb]. unfold RLE.set_length in Hcall.
  destruct (steps >? RLE.num_steps self).
  - unfold RLE._padding in Hcall. destruct from_left.
    + destruct (RLE.padding_loop fuel _ _ []) as [padding|] eqn:Hpad;
        [|discriminate].
      apply padding_loop_bounded in Hpad; [| constructor | exact Hm].
      injection Hcall as <-. apply standardize_well_formed.
      apply well_formed_set_events. split; [exact Hm|].
      apply runs_bounded_app. split; [exact Hpad | exact Hb].
    + destruct (RLE.padding_loop fuel _ _ []) as [padding|] eqn:Hpad;
        [|discriminate].
      apply padding_loop_bounded in Hpad; [| constructor | exact Hm].
      injection Hcall as <-. apply standardize_well_formed.
      apply well_formed_set_events. split; [exact Hm|].
      apply runs_bounded_app. split; [exact Hb | exact Hpad].
  - destruct from_left.
    + destruct (RLE.shrink_left_loop fuel _ _) as [[self'|e self']|] eqn:Hloop;
        [| |discriminate]; injection Hcall as <-;
        pose proof (shrink_left_loop_max_run_length _ _ _ _ Hloop) as Hcap;
        apply (shrink_left_loop_keeps
                 (fun run => 1 <= snd run <= RLE._max_run_length self)
                 (bounded_shortened (RLE._max_run_length self))) in Hloop;
        try exact Hb; destruct Hloop as [Hb' _]; simpl in *.
      * apply standardize_well_formed. split; rewrite Hcap; assumption.
      * split; rewrite Hcap; assumption.
    + destruct (RLE.shrink_right_loop fuel _ _) as [[self'|e self']|] eqn:Hloop;
        [| |discriminate]; injection Hcall as <-;
        pose proof (shrink_right_loop_max_run_length _ _ _ _ Hloop) as Hcap;
        apply (shrink_right_loop_keeps
                 (fun run => 1 <= snd run <= RLE._max_run_length self)
                 (bounded_shortened (RLE._max_run_length self))) in Hloop;
        try exact Hb; destruct Hloop as [Hb' _]; simpl in *.
      * apply standardize_well_formed. split; rewrite Hcap; assumption.
      * split; rewrite Hcap; assumption.
Qed.

(** On a well-formed object every loop of [set_length] ends. *)
Lemma set_length_returns (fuel : nat) (self : RLE.t E) (steps : Z)
    (from_left : bool) :
  well_formed self ->
  (Z.to_nat (Z.abs (steps - RLE.num_steps self))
   + length (RLE._events self) + 1 < fuel)%nat ->
  exists out, RLE.set_length fuel self steps from_left = Some out.
Proof.
  intros Hwf Hfuel. pose proof Hwf as [Hm Hb]. unfold RLE.set_length.
  destruct (steps >? RLE.num_steps self) eqn:Hgrow.
  - apply gtb_true in Hgrow. unfold RLE._padding. destruct from_left.
    + destruct (padding_loop_returns fuel
                  (RLE.set_start_step self
                     (RLE._start_step self - (steps - RLE.num_steps self)))
                  (steps - RLE.num_steps self) [] Hm) as [padding ->]; [lia|].
      eexists. reflexivity.
    + destruct (padding_loop_returns fuel self
                  (steps - RLE.num_steps self) [] Hm) as [padding ->]; [lia|].
      eexists. reflexivity.
  - apply gtb_false in Hgrow. destruct from_left.
    + destruct (shrink_left_loop_returns fuel
                  (RLE.set_start_step self
                     (RLE._start_step self + (RLE.num_steps self - steps)))
                  (RLE.num_steps self - steps)) as [out ->].
      * apply well_formed_set_start_step. exact Hwf.
      * lia.
      * destruct out; eexists; reflexivity.
    + destruct (shrink_right_loop_returns fuel self
                  (RLE.num_steps self - steps)) as [out ->].
      * lia.
      * intros _. lia.
      * destruct out; eexists; reflexivity.
Qed.

Lemma append_well_formed (self : RLE.t E) (event : RLE.event_arg E) :
  well_formed self -> well_formed (state_of (RLE.append self event)).
Proof.
  intros Hwf. pose proof Hwf as [Hm Hb].
  destruct event as [base_event [run_length|]|]; simpl; try assumption.
  destruct (run_length <? 1) eqn:Hlow; [assumption|].
  destruct (run_length >? RLE._max_run_length self) eqn:Hhigh; [assumption|].
  apply Z.ltb_ge in Hlow. apply gtb_false in Hhigh. simpl.
  apply well_formed_set_events. split; [assumption|].
  apply runs_bounded_app. split; [assumption|]. apply runs_bounded_one. lia.
Qed.

Lemma set_length_max_run_length (fuel : nat) (self : RLE.t E) (steps : Z)
    (from_left : bool) (out : outcome (RLE.t E)) :
  RLE.set_length fuel self steps from_left = Some out ->
  RLE._max_run_length (state_of out) = RLE._max_run_length self.
Proof.
  unfold RLE.set_length. intros Hcall.
  destruct (steps >? RLE.num_steps self).
  - destruct from_left.
    + destruct (RLE._padding fuel _ _); [|discriminate].
      injection Hcall as <-. simpl. now rewrite standardize_max_run_length.
    + destruct (RLE._padding fuel _ _); [|discriminate].
      injection Hcall as <-. simpl. now rewrite standardize_max_run_length.
  - destruct from_left.
    + destruct (RLE.shrink_left_loop fuel _ _) as [[self'|e self']|] eqn:Hloop;
        [| |discriminate]; injection Hcall as <-;
        apply shrink_left_loop_max_run_length in Hloop; simpl in *;
        rewrite ?standardize_max_run_length; exact Hloop.
    + destruct (RLE.shrink_right_loop fuel _ _) as [[self'|e self']|] eqn:Hloop;
        [| |discriminate]; injection Hcall as <-;
        apply shrink_right_loop_max_run_length in Hloop; simpl in *;
        rewrite ?standardize_max_run_length; exact Hloop.
Qed.

End Resizing.

(** ** Decoding *)

Section Decoding.
Context {E : Type} `{PyEvent E}.

Lemma decode_run_spec (count : nat) (event : E) :
  forall base : Simple.t E,
    RLE.decode_run count event base
    = Simple.mk (Simple._pad_event base)
                (Simple._events base ++ repeat event count)
                (Simple._start_step base)
                (Simple._end_step base + Z.of_nat count)
                (Simple._steps_per_bar base)
                (Simple._steps_per_quarter base).
Proof.
  induction count as [|count IH]; intros base.
  - simpl. rewrite app_nil_r, Z.add_0_r. now destruct base.
  - cbn [RLE.decode_run]. rewrite IH. unfold Simple.append. cbn [Simple._events
      Simple._pad_event Simple._start_step Simple._end_step
      Simple._steps_per_bar Simple._steps_per_quarter].
    rewrite <- app_assoc. f_equal. lia.
Qed.

Lemma decode_loop_spec (events : list (E * Z)) :
  forall base : Simple.t E,
    RLE.decode_loop events base
    = Simple.mk (Simple._pad_event base)
                (Simple._events base ++ expand events)
                (Simple._start_step base)
                (Simple._end_step base + Z.of_nat (length (expand events)))
                (Simple._steps_per_bar base)
                (Simple._steps_per_quarter base).
Proof.
  induction events as [|[event rl] events IH]; intros base.
  - simpl. rewrite app_nil_r, Z.add_0_r. now destruct base.
  - cbn [RLE.decode_loop]. rewrite IH, decode_run_spec.
    cbn [Simple._events Simple._pad_event Simple._start_step Simple._end_step
      Simple._steps_per_bar Simple._steps_per_quarter].
    change (expand ((event, rl) :: events))
      with (repeat event (Z.to_nat rl) ++ expand events).
    rewrite <- app_assoc, length_app, repeat_length. f_equal. lia.
Qed.

(** [num_steps] is the length of the underlying sequence. *)
Lemma num_steps_expand (self : RLE.t E) :
  Forall (fun run => 0 <= snd run) (RLE._events self) ->
  RLE.num_steps self = Z.of_nat (length (expand (RLE._events self))).
Proof.
  unfold RLE.num_steps. induction (RLE._events self) as [|[event rl] events IH];
    intros Hev; [reflexivity|].
  inversion Hev as [|? ? Hrl Hev']; subst. simpl in Hrl.
  cbn [fold_left]. rewrite sum_from, (IH Hev').
  change (expand ((event, rl) :: events))
    with (repeat event (Z.to_nat rl) ++ expand events).
  rewrite length_app, repeat_length. simpl snd. lia.
Qed.

End Decoding.

(** ** Increasing the resolution *)

Section Resolution.
Context {E : Type}.

Lemma py_list_mul_nonpositive (l : list E) (k : Z) :
  k <= 0 -> py_list_mul l k = [].
Proof.
  intros Hk. unfold py_list_mul. replace (Z.to_nat k) with O by lia.
  reflexivity.
Qed.

Lemma fold_fill (fill : E -> list E) (events : list E) :
  forall new_events,
    fold_left (fun new_events event => new_events ++ fill event)
              events new_events
    = new_events ++ flat_map fill events.
Proof.
  induction events as [|event events IH]; intros new_events; simpl.
  - now rewrite app_nil_r.
  - now rewrite IH, app_assoc.
Qed.

Lemma flat_map_nil (fill : E -> list E) (events : list E) :
  (forall event, fill event = []) -> flat_map fill events = [].
Proof.
  intros Hfill. induction events as [|event events IH]; simpl;
    [reflexivity | now rewrite Hfill, IH].
Qed.

Lemma flat_map_single (fill : E -> list E) (events : list E) :
  (forall event, fill event = [event]) -> flat_map fill events = events.
Proof.
  intros Hfill. induction events as [|event events IH]; simpl;
    [reflexivity | now rewrite Hfill, IH].
Qed.

End Resolution.

(** ** Invariants of reachable objects *)

Section Invariants.
Context {E : Type} `{PyEvent E}.

Lemma append_max_run_length (self : RLE.t E) (event : RLE.event_arg E) :
  RLE._max_run_length (state_of (RLE.append self event))
  = RLE._max_run_length self.
Proof.
  destruct event as [base_event [run_length|]|]; simpl; try reflexivity.
  destruct (run_length <? 1); [reflexivity|].
  destruct (run_length >? RLE._max_run_length self); reflexivity.
Qed.

Lemma append_full_or_positive (self : RLE.t E) (event : RLE.event_arg E) :
  runs_full_or_positive (RLE._max_run_length self) (RLE._events self) ->
  runs_full_or_positive (RLE._max_run_length self)
    (RLE._events (state_of (RLE.append self event))).
Proof.
  intros Hev.
  destruct event as [base_event [run_length|]|]; simpl; try assumption.
  destruct (run_length <? 1) eqn:Hlow; [assumption|].
  destruct (run_length >? RLE._max_run_length self); [assumption|].
  apply Z.ltb_ge in Hlow. simpl. apply Forall_app. split; [assumption|].
  constructor; [now right | constructor].
Qed.

Lemma reachable_full_or_positive (self : RLE.t E) :
  reachable self ->
  runs_full_or_positive (RLE._max_run_length self) (RLE._events self).
Proof.
  intros Hreach.
  induction Hreach as [base m self Hinit | self event _ IH
                      | self fuel steps from_left out _ IH Hcall].
  - destruct (init_runs base m) as (events & Hinit' & _ & Hpos & _).
    rewrite Hinit' in Hinit. injection Hinit as <-. simpl.
    eapply Forall_impl; [|exact Hpos]. simpl. intros run Hrun. now right.
  - rewrite append_max_run_length. now apply append_full_or_positive.
  - rewrite (set_length_max_run_length _ _ _ _ _ Hcall).
    apply (set_length_canonical_any_cap _ _ _ _ _ IH Hcall).
Qed.

Lemma reachable_well_formed (self : RLE.t E) :
  reachable self -> 1 <= RLE._max_run_length self -> well_formed self.
Proof.
  intros Hreach.
  induction Hreach as [base m self Hinit | self event _ IH
                      | self fuel steps from_left out _ IH Hcall]; intros Hm.
  - destruct (init_runs base m) as (events & Hinit' & _ & _ & _ & Hb).
    rewrite Hinit' in Hinit. injection Hinit as <-.
    split; [exact Hm | exact (Hb Hm)].
  - rewrite append_max_run_length in Hm. apply append_well_formed. now apply IH.
  - rewrite (set_length_max_run_length _ _ _ _ _ Hcall) in Hm.
    apply (set_length_sound _ _ _ _ _ (IH Hm) Hcall).
Qed.

End Invariants.

(** ** Properties of the codec *)

Section Codec.
Context {E : Type} `{PyEvent E}.

(** C1, as the code has it.  Encoding a [SimpleEventSequence] [S] with a cap
    of at least 1 and decoding into an empty target returns, and the target
    then holds exactly the events of [S].  [decode] only appends: the
    target keeps its own [start_step] and its [end_step] grows by the length
    of [S].  They are the [start_step] and [end_step] of [S] when the target
    started at [S]'s [start_step] with [end_step = start_step], and [S] has
    [end_step = start_step + len(S)]. *)
Theorem decode_encode_round_trip (S target : Simple.t E) (m : Z) :
  1 <= m ->
  Simple.__len__ target = 0 ->
  exists self target',
    RLE.__init__ (RLE.IsSimple S) m = Ok self
    /\ RLE.decode self target = Returned (self, target')
    /\ Simple._events target' = Simple._events S
    /\ Simple.start_step target' = Simple.start_step target
    /\ Simple.end_step target' = Simple.end_step target + Simple.__len__ S
    /\ (Simple.start_step target = Simple.start_step S ->
        Simple.end_step target = Simple.start_step target ->
        Simple.end_step S = Simple.start_step S + Simple.__len__ S ->
        Simple.start_step target' = Simple.start_step S
        /\ Simple.end_step target' = Simple.end_step S).
Proof.
  intros Hm Hempty.
  destruct (init_runs S m) as (events & Hinit & Hexp & _).
  assert (Hnil : Simple._events target = []).
  { unfold Simple.__len__ in Hempty.
    destruct (Simple._events target); [reflexivity | discriminate]. }
  eexists. eexists. split; [exact Hinit|].
  unfold RLE.decode, Simple.truth_value. rewrite Hempty. cbn [Z.eqb negb].
  split; [reflexivity|]. cbn [RLE._events].
  rewrite decode_loop_spec, Hexp, Hnil.
  unfold Simple.start_step, Simple.end_step, Simple.__len__.
  cbn [Simple._events Simple._start_step Simple._end_step app].
  repeat split; try reflexivity; lia.
Qed.

(** C7.  [decode] raises exactly when the target is not empty, and then it
    has changed neither the encoded sequence nor the target. *)
Theorem decode_raises_iff_nonempty (self : RLE.t E) (target : Simple.t E) :
  (raised (RLE.decode self target) = true <-> 0 < Simple.__len__ target)
  /\ (raised (RLE.decode self target) = true ->
      RLE.decode self target
      = Raised (RunLengthEncodedEventSequenceException
                  "cannot decode into non-empty event sequence")
               (self, target)).
Proof.
  unfold RLE.decode, Simple.truth_value.
  assert (Hlen : 0 <= Simple.__len__ target)
    by (unfold Simple.__len__; lia).
  destruct (Simple.__len__ target =? 0) eqn:Hzero; cbn [negb raised].
  - apply Z.eqb_eq in Hzero. split; [split; [discriminate | lia] | discriminate].
  - apply Z.eqb_neq in Hzero. split; [split; [lia | reflexivity] | reflexivity].
Qed.

(** C9.  [append] of a [SimpleEventSequence] stores the event after the
    events already there, adds 1 to [end_step] and keeps [start_step].
    [append] of a valid run to a [RunLengthEncodedEventSequence] returns,
    stores the run as given after the runs already there, whatever the last
    of them is, adds [run_length] to [end_step] and keeps [start_step]. *)
Theorem append_non_destructive (base : Simple.t E) (event : E)
    (self : RLE.t E) (base_event : E) (run_length : Z) :
  1 <= run_length <= RLE._max_run_length self ->
  (Simple._events (Simple.append base event) = Simple._events base ++ [event]
   /\ Simple.end_step (Simple.append base event) = Simple.end_step base + 1
   /\ Simple.start_step (Simple.append base event) = Simple.start_step base)
  /\ exists self',
       RLE.append self (RLE.IsPair base_event (RLE.IsInt run_length))
       = Returned self'
       /\ RLE._events self' = RLE._events self ++ [(base_event, run_length)]
       /\ RLE.end_step self' = RLE.end_step self + run_length
       /\ RLE.start_step self' = RLE.start_step self.
Proof.
  intros Hrun. split; [repeat split|].
  unfold RLE.append.
  replace (run_length <? 1) with false by (symmetry; apply Z.ltb_ge; lia).
  replace (run_length >? RLE._max_run_length self) with false
    by (symmetry; apply gtb_false; lia).
  eexists. split; [reflexivity|]. split; [reflexivity|]. split; [|reflexivity].
  unfold RLE.end_step, RLE.start_step, RLE.num_steps.
  cbn [RLE.set_events RLE._events RLE._start_step].
  rewrite fold_left_app. cbn [fold_left snd]. lia.
Qed.

(** C4.  Take any object the class produces: built by the constructor and
    changed by any calls of [append] and [set_length].  When a call of
    [set_length] on it is over, growing or shrinking, from either end,
    returning or raising, the cap is the one before the call and the run list
    is canonical: two adjacent runs have equal events only when the earlier
    one has length [max_run_length].  With a cap of at least 1 every such
    call is over after finitely many steps. *)
Theorem set_length_canonical (self : RLE.t E) (steps : Z) (from_left : bool) :
  reachable self ->
  (forall fuel out,
     RLE.set_length fuel self steps from_left = Some out ->
     RLE._max_run_length (state_of out) = RLE._max_run_length self
     /\ canonical (RLE._max_run_length self) (RLE._events (state_of out)))
  /\ (1 <= RLE._max_run_length self ->
      exists fuel out, RLE.set_length fuel self steps from_left = Some out).
Proof.
  intros Hreach. split.
  - intros fuel out Hcall.
    split; [apply (set_length_max_run_length _ _ _ _ _ Hcall)|].
    apply (set_length_canonical_any_cap _ _ _ _ _
             (reachable_full_or_positive self Hreach) Hcall).
  - intros Hm. eexists.
    apply (set_length_returns _ self steps from_left
             (reachable_well_formed self Hreach Hm)).
    apply Nat.lt_succ_diag_r.
Qed.

(** C5.  Every object built by the constructor with a cap of at least 1,
    and every object obtained from it by later calls of [set_length] (and of
    [append]), has all its run lengths between 1 and [max_run_length]. *)
Theorem reachable_runs_bounded (self : RLE.t E) :
  reachable self ->
  1 <= RLE._max_run_length self ->
  runs_bounded (RLE._max_run_length self) (RLE._events self).
Proof.
  intros Hreach Hm. apply (reachable_well_formed self Hreach Hm).
Qed.

(** C10.  On a run list with lengths between 1 and a cap of at least 1,
    [_standardize_run_lengths] keeps the underlying sequence, and so
    [num_steps], [start_step] and [end_step]. *)
Theorem standardize_preserves_content (self : RLE.t E) :
  1 <= RLE._max_run_length self ->
  runs_bounded (RLE._max_run_length self) (RLE._events self) ->
  expand (RLE._events (RLE._standardize_run_lengths self))
  = expand (RLE._events self)
  /\ RLE.num_steps (RLE._standardize_run_lengths self) = RLE.num_steps self
  /\ RLE.start_step (RLE._standardize_run_lengths self) = RLE.start_step self
  /\ RLE.end_step (RLE._standardize_run_lengths self) = RLE.end_step self.
Proof.
  intros Hm Hb.
  destruct (standardize_spec self (conj Hm Hb)) as (new & Hstd & Hnb & _ & Hx).
  rewrite Hstd. cbn [RLE.set_events RLE._events].
  assert (Hsteps : RLE.num_steps (RLE.set_events self new) = RLE.num_steps self).
  { rewrite !num_steps_expand.
    - cbn [RLE.set_events RLE._events]. now rewrite Hx.
    - eapply Forall_impl; [|exact Hb]. simpl. intros run Hrun. lia.
    - eapply Forall_impl; [|exact Hnb]. simpl. intros run Hrun. lia. }
  split; [exact Hx|]. split; [exact Hsteps|]. split; [reflexivity|].
  unfold RLE.end_step. now rewrite Hsteps.
Qed.

(** The constructor does not check [max_run_length]: with a cap below 1 and
    any [SimpleEventSequence] it returns an object, which stores the cap as
    given and runs that decode to the base events, each of length at least
    1. *)
Theorem init_accepts_cap_below_one (base_events : Simple.t E) (m : Z) :
  m < 1 ->
  exists events,
    RLE.__init__ (RLE.IsSimple base_events) m
    = Ok (RLE.mk (Simple._pad_event base_events) m events
                 (Simple._start_step base_events)
                 (Simple._steps_per_quarter base_events))
    /\ expand events = Simple._events base_events
    /\ Forall (fun run => 1 <= snd run) events.
Proof.
  intros _. destruct (init_runs base_events m) as (events & Hinit & Hx & Hpos & _).
  exists events. now repeat split.
Qed.

(** C8, as the code has it.  [increase_resolution] does not check [k]: with
    [k <= 0] it returns, having multiplied the four step attributes by [k];
    it has emptied the event list when [fill_event] is [None] and kept it as
    it was otherwise. *)
Theorem increase_resolution_nonpositive (self : Simple.t E) (k : Z)
    (fill_event : E) :
  k <= 0 ->
  Simple.increase_resolution self k fill_event
  = Returned (Simple.mk (Simple._pad_event self)
                        (if py_eq_dec fill_event py_None
                         then [] else Simple._events self)
                        (Simple._start_step self * k)
                        (Simple._end_step self * k)
                        (Simple._steps_per_bar self * k)
                        (Simple._steps_per_quarter self * k)).
Proof.
  intros Hk. unfold Simple.increase_resolution. do 2 f_equal.
  rewrite fold_fill. cbn [app].
  destruct (py_eq_dec fill_event py_None).
  - apply flat_map_nil. intros event. now apply py_list_mul_nonpositive.
  - apply flat_map_single. intros event.
    rewrite py_list_mul_nonpositive by lia. reflexivity.
Qed.

End Codec.

(** ** The code on concrete sequences *)

(** C1 as stated does not hold: decoding the encoding of ['A'], which starts
    at step 5, into a fresh empty sequence, which starts at step 0, returns
    with the target still starting at step 0 and ending at step 1, while the
    source starts at 5 and ends at 6. *)
Lemma decode_keeps_start_step_of_target :
  exists self target',
    RLE.__init__ (RLE.IsSimple (simple_of [A_] 5)) 2 = Ok self
    /\ Simple.__len__ (empty_at 0) = 0
    /\ RLE.decode self (empty_at 0) = Returned (self, target')
    /\ Simple.start_step target' = 0
    /\ Simple.end_step target' = 1
    /\ Simple.start_step (simple_of [A_] 5) = 5
    /\ Simple.end_step (simple_of [A_] 5) = 6
    /\ Simple.start_step target' <> Simple.start_step (simple_of [A_] 5)
    /\ Simple.end_step target' <> Simple.end_step (simple_of [A_] 5).
Proof.
  eexists. eexists. split; [reflexivity|]. split; [reflexivity|].
  split; [reflexivity|]. repeat split; discriminate.
Qed.

Lemma decode_encode_round_trip_witness :
  (1 <= 2 /\ Simple.__len__ (empty_at 0) = 0)
  /\ exists self target',
       RLE.__init__ (RLE.IsSimple (simple_of [A_; A_; A_; B_; C_; C_] 0)) 2
       = Ok self
       /\ RLE.decode self (empty_at 0) = Returned (self, target')
       /\ Simple._events target'
          = Simple._events (simple_of [A_; A_; A_; B_; C_; C_] 0)
       /\ Simple.start_step target' = Simple.start_step (empty_at 0)
       /\ Simple.end_step target'
          = Simple.end_step (empty_at 0)
            + Simple.__len__ (simple_of [A_; A_; A_; B_; C_; C_] 0)
       /\ (Simple.start_step (empty_at 0)
           = Simple.start_step (simple_of [A_; A_; A_; B_; C_; C_] 0) ->
           Simple.end_step (empty_at 0) = Simple.start_step (empty_at 0) ->
           Simple.end_step (simple_of [A_; A_; A_; B_; C_; C_] 0)
           = Simple.start_step (simple_of [A_; A_; A_; B_; C_; C_] 0)
             + Simple.__len__ (simple_of [A_; A_; A_; B_; C_; C_] 0) ->
           Simple.start_step target'
           = Simple.start_step (simple_of [A_; A_; A_; B_; C_; C_] 0)
           /\ Simple.end_step target'
              = Simple.end_step (simple_of [A_; A_; A_; B_; C_; C_] 0)).
Proof.
  split; [split; [lia | reflexivity]|].
  apply (decode_encode_round_trip
           (simple_of [A_; A_; A_; B_; C_; C_] 0) (empty_at 0) 2);
    [lia | reflexivity].
Defined.

(** C2 does not hold of the code.  ['A', 'A', 'B'] encoded with cap 2 is
    [('A', 2), ('B', 1)], 3 steps from step 0 to step 3.
    [set_length(1, from_left=True)] has 2 steps to remove: the first run
    is not longer than that, [self._events = self._events[0:]] keeps it, and
    the loop ends with nothing removed.  The call returns with
    [start_step] 2 and the same two runs: 3 steps, not 1, ending at step 5,
    not 3, and decoding to ['A', 'A', 'B'], not to ['B']. *)
Theorem set_length_from_left_keeps_consumed_run :
  exists self self',
    RLE.__init__ (RLE.IsSimple (simple_of [A_; A_; B_] 0)) 2 = Ok self
    /\ RLE._events self = [(A_, 2); (B_, 1)]
    /\ RLE.num_steps self = 3
    /\ RLE.end_step self = 3
    /\ (forall fuel, RLE.set_length (S (S fuel)) self 1 true = Some (Returned self'))
    /\ RLE._events self' = [(A_, 2); (B_, 1)]
    /\ RLE.start_step self' = 2
    /\ RLE.num_steps self' = 3
    /\ RLE.end_step self' = 5
    /\ expand (RLE._events self') = [A_; A_; B_].
Proof.
  eexists. eexists. split; [reflexivity|]. split; [reflexivity|].
  split; [reflexivity|]. split; [reflexivity|].
  split; [intros fuel; reflexivity|]. repeat split.
Qed.

(** The constructor takes [base_events] and [max_run_length] and has one
    way of encoding, which merges equal events whether or not they are the
    pad event: on ['A', 'A', '_', '_', '_', 'B'] with cap 2 the two 'A' make
    one run of length 2, not two runs of length 1. *)
Theorem init_merges_equal_events_that_are_not_pad :
  RLE.__init__ (RLE.IsSimple (simple_of [A_; A_; pad_; pad_; pad_; B_] 0)) 2
  = Ok (rle_of [(A_, 2); (pad_, 2); (pad_, 1); (B_, 1)] 2 0)
  /\ rle_of [(A_, 2); (pad_, 2); (pad_, 1); (B_, 1)] 2 0
     <> rle_of [(A_, 1); (A_, 1); (pad_, 2); (pad_, 1); (B_, 1)] 2 0.
Proof.
  split; [reflexivity | discriminate].
Qed.

Lemma set_length_canonical_witness :
  reachable (rle_of [(A_, 1); (A_, 1)] 2 0)
  /\ ((forall fuel out,
         RLE.set_length fuel (rle_of [(A_, 1); (A_, 1)] 2 0) 3 false = Some out ->
         RLE._max_run_length (state_of out)
         = RLE._max_run_length (rle_of [(A_, 1); (A_, 1)] 2 0)
         /\ canonical (RLE._max_run_length (rle_of [(A_, 1); (A_, 1)] 2 0))
                      (RLE._events (state_of out)))
      /\ (1 <= RLE._max_run_length (rle_of [(A_, 1); (A_, 1)] 2 0) ->
          exists fuel out,
            RLE.set_length fuel (rle_of [(A_, 1); (A_, 1)] 2 0) 3 false
            = Some out)).
Proof.
  assert (Hreach : reachable (rle_of [(A_, 1); (A_, 1)] 2 0)).
  { change (reachable
              (state_of (RLE.append (rle_of [(A_, 1)] 2 0)
                                    (RLE.IsPair A_ (RLE.IsInt 1))))).
    apply reachable_append.
    change (reachable
              (state_of (RLE.append (rle_of [] 2 0)
                                    (RLE.IsPair A_ (RLE.IsInt 1))))).
    apply reachable_append.
    apply (reachable_init (empty_at 0) 2). reflexivity. }
  split; [exact Hreach|].
  apply (set_length_canonical (rle_of [(A_, 1); (A_, 1)] 2 0) 3 false Hreach).
Defined.

Lemma reachable_runs_bounded_witness :
  (reachable (rle_of [(A_, 2); (A_, 1); (pad_, 2)] 2 0)
   /\ 1 <= RLE._max_run_length (rle_of [(A_, 2); (A_, 1); (pad_, 2)] 2 0))
  /\ runs_bounded
       (RLE._max_run_length (rle_of [(A_, 2); (A_, 1); (pad_, 2)] 2 0))
       (RLE._events (rle_of [(A_, 2); (A_, 1); (pad_, 2)] 2 0)).
Proof.
  assert (Hreach : reachable (rle_of [(A_, 2); (A_, 1); (pad_, 2)] 2 0)).
  { apply (reachable_set_length (rle_of [(A_, 2); (A_, 1)] 2 0) 4 5 false
             (Returned (rle_of [(A_, 2); (A_, 1); (pad_, 2)] 2 0))).
    - apply (reachable_init (simple_of [A_; A_; A_] 0) 2). reflexivity.
    - reflexivity. }
  assert (Hm : 1 <= RLE._max_run_length
                      (rle_of [(A_, 2); (A_, 1); (pad_, 2)] 2 0))
    by (simpl; lia).
  split; [split; [exact Hreach | exact Hm]|].
  apply (reachable_runs_bounded _ Hreach Hm).
Defined.

(** With [max_run_length = 0] the constructor raises nothing and stores a
    run list, here a run of length 2 under a cap of 0. *)
Lemma init_with_cap_zero_returns :
  RLE.__init__ (RLE.IsSimple (simple_of [A_; A_] 0)) 0
  = Ok (rle_of [(A_, 2)] 0 0).
Proof. reflexivity. Qed.

Lemma init_accepts_cap_below_one_witness :
  0 < 1
  /\ exists events,
       RLE.__init__ (RLE.IsSimple (simple_of [A_; A_] 0)) 0
       = Ok (RLE.mk (Simple._pad_event (simple_of [A_; A_] 0)) 0 events
                    (Simple._start_step (simple_of [A_; A_] 0))
                    (Simple._steps_per_quarter (simple_of [A_; A_] 0)))
       /\ expand events = Simple._events (simple_of [A_; A_] 0)
       /\ Forall (fun run => 1 <= snd run) events.
Proof.
  split; [lia|].
  apply (init_accepts_cap_below_one (simple_of [A_; A_] 0) 0). lia.
Defined.

(** C8 as stated does not hold: [increase_resolution(0)] on [1, 0], which
    starts at step 5, raises nothing and leaves an empty sequence with all
    four step attributes at 0. *)
Lemma increase_resolution_by_zero_returns :
  Simple.increase_resolution ones_and_zeros 0 PyNone
  = Returned (Simple.mk (PyInt 0) [] 0 0 0 0)
  /\ raised (Simple.increase_resolution ones_and_zeros 0 PyNone) = false
  /\ state_of (Simple.increase_resolution ones_and_zeros 0 PyNone)
     <> ones_and_zeros.
Proof.
  split; [reflexivity|]. split; [reflexivity | discriminate].
Qed.

Lemma increase_resolution_nonpositive_witness :
  -1 <= 0
  /\ Simple.increase_resolution ones_and_zeros (-1) (PyInt 0)
     = Returned
         (Simple.mk (Simple._pad_event ones_and_zeros)
                    (if py_eq_dec (PyInt 0) py_None
                     then [] else Simple._events ones_and_zeros)
                    (Simple._start_step ones_and_zeros * -1)
                    (Simple._end_step ones_and_zeros * -1)
                    (Simple._steps_per_bar ones_and_zeros * -1)
                    (Simple._steps_per_quarter ones_and_zeros * -1)).
Proof.
  split; [lia|].
  apply (increase_resolution_nonpositive ones_and_zeros (-1) (PyInt 0)). lia.
Defined.

Lemma append_non_destructive_witness :
  1 <= 1 <= RLE._max_run_length (rle_of [(A_, 1)] 2 0)
  /\ ((Simple._events (Simple.append (simple_of [A_] 0) B_)
       = Simple._events (simple_of [A_] 0) ++ [B_]
       /\ Simple.end_step (Simple.append (simple_of [A_] 0) B_)
          = Simple.end_step (simple_of [A_] 0) + 1
       /\ Simple.start_step (Simple.append (simple_of [A_] 0) B_)
          = Simple.start_step (simple_of [A_] 0))
      /\ exists self',
           RLE.append (rle_of [(A_, 1)] 2 0) (RLE.IsPair A_ (RLE.IsInt 1))
           = Returned self'
           /\ RLE._events self' = RLE._events (rle_of [(A_, 1)] 2 0) ++ [(A_, 1)]
           /\ RLE.end_step self' = RLE.end_step (rle_of [(A_, 1)] 2 0) + 1
           /\ RLE.start_step self' = RLE.start_step (rle_of [(A_, 1)] 2 0)).
Proof.
  assert (Hrun : 1 <= 1 <= RLE._max_run_length (rle_of [(A_, 1)] 2 0))
    by (simpl; lia).
  split; [exact Hrun|].
  apply (append_non_destructive (simple_of [A_] 0) B_
           (rle_of [(A_, 1)] 2 0) A_ 1 Hrun).
Defined.

Lemma standardize_preserves_content_witness :
  (1 <= RLE._max_run_length (rle_of [(A_, 1); (A_, 1); (B_, 2)] 2 0)
   /\ runs_bounded (RLE._max_run_length (rle_of [(A_, 1); (A_, 1); (B_, 2)] 2 0))
                   (RLE._events (rle_of [(A_, 1); (A_, 1); (B_, 2)] 2 0)))
  /\ (expand (RLE._events (RLE._standardize_run_lengths
                             (rle_of [(A_, 1); (A_, 1); (B_, 2)] 2 0)))
      = expand (RLE._events (rle_of [(A_, 1); (A_, 1); (B_, 2)] 2 0))
      /\ RLE.num_steps (RLE._standardize_run_lengths
                          (rle_of [(A_, 1); (A_, 1); (B_, 2)] 2 0))
         = RLE.num_steps (rle_of [(A_, 1); (A_, 1); (B_, 2)] 2 0)
      /\ RLE.start_step (RLE._standardize_run_lengths
                           (rle_of [(A_, 1); (A_, 1); (B_, 2)] 2 0))
         = RLE.start_step (rle_of [(A_, 1); (A_, 1); (B_, 2)] 2 0)
      /\ RLE.end_step (RLE._standardize_run_lengths
                         (rle_of [(A_, 1); (A_, 1); (B_, 2)] 2 0))
         = RLE.end_step (rle_of [(A_, 1); (A_, 1); (B_, 2)] 2 0)).
Proof.
  assert (Hm : 1 <= RLE._max_run_length (rle_of [(A_, 1); (A_, 1); (B_, 2)] 2 0))
    by (simpl; lia).
  assert (Hb : runs_bounded
                 (RLE._max_run_length (rle_of [(A_, 1); (A_, 1); (B_, 2)] 2 0))
                 (RLE._events (rle_of [(A_, 1); (A_, 1); (B_, 2)] 2 0)))
    by (repeat constructor; simpl; lia).
  split; [split; [exact Hm | exact Hb]|].
  apply (standardize_preserves_content _ Hm Hb).
Defined.

(** ** The scenarios of [events_lib_test.py] that the code supports *)

Example testEncode :
  RLE.__init__ (RLE.IsSimple (simple_of [A_; A_; A_; B_; C_; C_] 0)) 2
  = Ok (rle_of [(A_, 2); (A_, 1); (B_, 1); (C_, 2)] 2 0).
Proof. reflexivity. Qed.

Example testSetLength_pad_right :
  RLE.set_length 4 (rle_of [] 2 1) 3 false
  = Some (Returned (rle_of [(pad_, 2); (pad_, 1)] 2 1))
  /\ RLE.end_step (rle_of [(pad_, 2); (pad_, 1)] 2 1) = 4.
Proof. split; reflexivity. Qed.

Example testSetLength_pad_left :
  RLE.set_length 4 (rle_of [(pad_, 2); (pad_, 1)] 2 1) 4 true
  = Some (Returned (rle_of [(pad_, 2); (pad_, 2)] 2 0)).
Proof. reflexivity. Qed.

Example testSetLength_shrink_right :
  RLE.set_length 4 (rle_of [(pad_, 1); (A_, 2); (pad_, 2); (pad_, 1)] 2 9) 2 false
  = Some (Returned (rle_of [(pad_, 1); (A_, 1)] 2 9)).
Proof. reflexivity. Qed.

Example testSetLength_shrink_left :
  RLE.set_length 4 (rle_of [(pad_, 2)] 2 0) 1 true
  = Some (Returned (rle_of [(pad_, 1)] 2 1)).
Proof. reflexivity. Qed.

Example testIncreaseResolution :
  Simple.increase_resolution
    (Simple.__init__ (PyInt 0) (Some [PyInt 1; PyInt 0; PyInt 1; PyInt 0]) 5 4 1)
    3 PyNone
  = Returned
      (Simple.mk (PyInt 0)
         [PyInt 1; PyInt 1; PyInt 1; PyInt 0; PyInt 0; PyInt 0;
          PyInt 1; PyInt 1; PyInt 1; PyInt 0; PyInt 0; PyInt 0]
         15 27 12 3).
Proof. reflexivity. Qed.

(** ** More of [SimpleEventSequence]: resizing, copies, equality, indexing *)

Section SimpleSequences.
Context {E : Type} `{PyEvent E}.

Lemma py_list_mul_one (x : E) (k : Z) :
  py_list_mul [x] k = repeat x (Z.to_nat k).
Proof.
  unfold py_list_mul. induction (Z.to_nat k) as [|n IH]; simpl;
    [reflexivity | now rewrite IH].
Qed.

Lemma py_del_tail (l : list E) (steps : Z) :
  0 <= steps -> py_del_slice l (Some steps) None = firstn (Z.to_nat steps) l.
Proof.
  intros Hsteps. unfold py_del_slice, py_slice_bound.
  replace (steps <? 0) with false by (symmetry; apply Z.ltb_ge; lia).
  rewrite skipn_all2 by lia. rewrite app_nil_r.
  destruct (Z.le_gt_cases steps (Z.of_nat (length l))) as [Hle | Hgt].
  - now rewrite Z.min_l by lia.
  - rewrite Z.min_r by lia. rewrite !firstn_all2 by lia. reflexivity.
Qed.

Lemma py_del_head (l : list E) (steps : Z) :
  0 < steps ->
  py_del_slice l (Some 0) (Some (- steps))
  = skipn (length l - Z.to_nat steps) l.
Proof.
  intros Hsteps. unfold py_del_slice, py_slice_bound.
  replace (0 <? 0) with false by reflexivity.
  replace (- steps <? 0) with true by (symmetry; apply Z.ltb_lt; lia).
  rewrite Z.min_l by lia. cbn [Z.to_nat firstn app]. f_equal. lia.
Qed.

Lemma py_del_nothing (l : list E) :
  py_del_slice l (Some 0) (Some (- 0)) = l.
Proof.
  unfold py_del_slice, py_slice_bound. cbn [Z.opp Z.ltb Z.compare].
  rewrite Z.min_l by lia. reflexivity.
Qed.

(** [set_length] from the right, to a length that is not negative: the
    events are padded at the end or the first [steps] of them are kept;
    [start_step] stays, and the sequence has [steps] events from
    [start_step] to [end_step]. *)
Theorem simple_set_length_right (self : Simple.t E) (steps : Z) :
  0 <= steps ->
  (Simple.__len__ self <= steps ->
   Simple._events (Simple.set_length self steps false)
   = Simple._events self
     ++ repeat (Simple._pad_event self)
               (Z.to_nat (steps - Simple.__len__ self)))
  /\ (steps <= Simple.__len__ self ->
      Simple._events (Simple.set_length self steps false)
      = firstn (Z.to_nat steps) (Simple._events self))
  /\ Simple.__len__ (Simple.set_length self steps false) = steps
  /\ Simple.start_step (Simple.set_length self steps false)
     = Simple.start_step self
  /\ Simple.end_step (Simple.set_length self steps false)
     = Simple.start_step self + steps.
Proof.
  intros Hsteps. unfold Simple.set_length, Simple.__len__.
  cbn [Simple._events Simple.start_step Simple.end_step Simple._start_step
       Simple._end_step].
  destruct (steps >? Z.of_nat (length (Simple._events self))) eqn:Hgrow.
  - apply gtb_true in Hgrow. rewrite py_list_mul_one.
    split; [reflexivity|]. split; [lia|].
    split; [|split; reflexivity].
    rewrite length_app, repeat_length. lia.
  - apply gtb_false in Hgrow. rewrite py_del_tail by assumption.
    split; [|split; [reflexivity|split; [|split; reflexivity]]].
    + intros Hle. replace steps with (Z.of_nat (length (Simple._events self)))
        by lia.
      rewrite Z.sub_diag, Nat2Z.id, firstn_all. cbn [Z.to_nat repeat].
      now rewrite app_nil_r.
    + rewrite length_firstn. lia.
Qed.

(** [set_length] from the left, to a positive length: the events are padded
    in front or the last [steps] of them are kept; [end_step] stays, and the
    sequence has [steps] events from [start_step] to [end_step]. *)
Theorem simple_set_length_left (self : Simple.t E) (steps : Z) :
  0 < steps ->
  (Simple.__len__ self <= steps ->
   Simple._events (Simple.set_length self steps true)
   = repeat (Simple._pad_event self) (Z.to_nat (steps - Simple.__len__ self))
     ++ Simple._events self)
  /\ (steps <= Simple.__len__ self ->
      Simple._events (Simple.set_length self steps true)
      = skipn (length (Simple._events self) - Z.to_nat steps)
              (Simple._events self))
  /\ Simple.__len__ (Simple.set_length self steps true) = steps
  /\ Simple.end_step (Simple.set_length self steps true)
     = Simple.end_step self
  /\ Simple.start_step (Simple.set_length self steps true)
     = Simple.end_step self - steps.
Proof.
  intros Hsteps. unfold Simple.set_length, Simple.__len__.
  cbn [Simple._events Simple.start_step Simple.end_step Simple._start_step
       Simple._end_step].
  destruct (steps >? Z.of_nat (length (Simple._events self))) eqn:Hgrow.
  - apply gtb_true in Hgrow. rewrite py_list_mul_one.
    split; [reflexivity|]. split; [lia|].
    split; [|split; reflexivity].
    rewrite length_app, repeat_length. lia.
  - apply gtb_false in Hgrow. rewrite py_del_head by assumption.
    split; [|split; [reflexivity|split; [|split; reflexivity]]].
    + intros Hle. replace steps with (Z.of_nat (length (Simple._events self)))
        by lia.
      rewrite Z.sub_diag, Nat2Z.id, Nat.sub_diag. reflexivity.
    + rewrite length_skipn. lia.
Qed.

(** [set_length(0, from_left=True)] removes nothing: [-steps] is [0], and
    [del self._events[0:0]] is the empty slice.  The events all stay, while
    [start_step] moves up to [end_step]. *)
Theorem simple_set_length_zero_from_left (self : Simple.t E) :
  Simple._events (Simple.set_length self 0 true) = Simple._events self
  /\ Simple.start_step (Simple.set_length self 0 true) = Simple.end_step self
  /\ Simple.end_step (Simple.set_length self 0 true) = Simple.end_step self.
Proof.
  unfold Simple.set_length, Simple.__len__.
  replace (0 >? Z.of_nat (length (Simple._events self))) with false
    by (symmetry; apply gtb_false; lia).
  cbn [Simple._events Simple.start_step Simple.end_step Simple._start_step
       Simple._end_step].
  rewrite py_del_nothing, Z.sub_0_r. repeat split.
Qed.

Lemma py_list_eqb_eq (l1 l2 : list E) : py_list_eqb l1 l2 = true <-> l1 = l2.
Proof.
  revert l2. induction l1 as [|x l1 IH]; intros [|y l2]; simpl;
    try (split; [discriminate | discriminate]); [tauto|].
  rewrite andb_true_iff, negb_true_iff, py_ne_false, IH.
  split; [intros [-> ->]; reflexivity | intros [= -> ->]; now split].
Qed.

Lemma simple_eq_fields (self other : Simple.t E) :
  Simple.__eq__ self (Some other) = true
  <-> Simple._events self = Simple._events other
      /\ Simple._steps_per_bar self = Simple._steps_per_bar other
      /\ Simple._steps_per_quarter self = Simple._steps_per_quarter other
      /\ Simple._start_step self = Simple._start_step other
      /\ Simple._end_step self = Simple._end_step other.
Proof.
  unfold Simple.__eq__, Simple.__iter__, Simple.steps_per_bar,
    Simple.steps_per_quarter, Simple.start_step, Simple.end_step.
  rewrite !andb_true_iff, py_list_eqb_eq, !Z.eqb_eq. tauto.
Qed.

(** A deep copy compares equal to the original exactly when the original
    has [end_step = start_step + len]: the copy gets its [end_step] from
    [__init__], which computes it from the events. *)
Theorem deepcopy_equal_iff (self : Simple.t E) :
  Simple.__eq__ (Simple.__deepcopy__ self) (Some self) = true
  <-> Simple.end_step self = Simple.start_step self + Simple.__len__ self.
Proof.
  rewrite simple_eq_fields.
  unfold Simple.__deepcopy__, Simple.__init__, Simple.__len__,
    Simple.pad_event, Simple.start_step, Simple.end_step,
    Simple.steps_per_bar, Simple.steps_per_quarter.
  cbn [Simple._events Simple._start_step Simple._end_step
       Simple._steps_per_bar Simple._steps_per_quarter].
  split; [intros (_ & _ & _ & _ & Hend); lia | intros Hend; repeat split; lia].
Qed.

(** [__eq__] does not look at [pad_event]: two sequences that compare equal
    but pad differently no longer compare equal once they are grown, to the
    same length from the same side. *)
Theorem equal_sequences_grow_apart (s1 s2 : Simple.t E) (steps : Z)
    (from_left : bool) :
  Simple.__eq__ s1 (Some s2) = true ->
  Simple._pad_event s1 <> Simple._pad_event s2 ->
  Simple.__len__ s1 < steps ->
  Simple.__eq__ (Simple.set_length s1 steps from_left)
                (Some (Simple.set_length s2 steps from_left)) = false.
Proof.
  intros Heq Hpad Hgrow. apply simple_eq_fields in Heq.
  destruct Heq as (Hev & _).
  apply not_true_is_false. intros Heq'. apply simple_eq_fields in Heq'.
  destruct Heq' as (Hev' & _). revert Hev'.
  unfold Simple.set_length, Simple.__len__ in *. rewrite <- Hev.
  replace (steps >? Z.of_nat (length (Simple._events s1))) with true
    by (symmetry; apply gtb_true; lia).
  rewrite !py_list_mul_one.
  destruct (Z.to_nat (steps - Z.of_nat (length (Simple._events s1))))
    as [|n] eqn:Hn; [lia|].
  destruct from_left; cbn [Simple._events repeat app].
  - intros [= Hp _]. contradiction.
  - intros Happ. apply app_inv_head in Happ. injection Happ as Hp _.
    contradiction.
Qed.

Lemma flat_map_repeat (fill : E -> list E) (x : E) (n : nat) :
  flat_map fill (repeat x n) = concat (repeat (fill x) n).
Proof.
  induction n as [|n IH]; simpl; [reflexivity | now rewrite IH].
Qed.

Lemma concat_repeat_repeat (x : E) (k n : nat) :
  concat (repeat (repeat x k) n) = repeat x (n * k).
Proof.
  induction n as [|n IH]; simpl; [reflexivity|].
  now rewrite IH, repeat_app.
Qed.

(** What [increase_resolution] puts in place of one event. *)
Lemma increase_resolution_events (self : Simple.t E) (k : Z) (fill_event : E) :
  1 <= k ->
  Simple._events (state_of (Simple.increase_resolution self k fill_event))
  = flat_map (fun event =>
                if py_eq_dec fill_event py_None
                then repeat event (Z.to_nat k)
                else event :: repeat fill_event (Z.to_nat (k - 1)))
             (Simple._events self).
Proof.
  intros Hk. unfold Simple.increase_resolution. cbn [state_of Simple._events].
  rewrite fold_fill. cbn [app].
  destruct (py_eq_dec fill_event py_None).
  - apply flat_map_ext. intros event. apply py_list_mul_one.
  - apply flat_map_ext. intros event. now rewrite py_list_mul_one.
Qed.

Lemma flat_map_length_const (fill : E -> list E) (n : nat) (events : list E) :
  (forall event, length (fill event) = n) ->
  length (flat_map fill events) = (n * length events)%nat.
Proof.
  intros Hfill. induction events as [|event events IH]; simpl; [lia|].
  rewrite length_app, Hfill, IH. lia.
Qed.

(** [increase_resolution] by a factor [k >= 1] returns; every event has
    become [k] events, itself [k] times when [fill_event] is [None], itself
    followed by [k - 1] times [fill_event] otherwise; the four step
    attributes are multiplied by [k], so a sequence that has
    [end_step = start_step + len] still has it. *)
Theorem increase_resolution_positive (self : Simple.t E) (k : Z)
    (fill_event : E) :
  1 <= k ->
  exists self',
    Simple.increase_resolution self k fill_event = Returned self'
    /\ Simple._events self'
       = flat_map (fun event =>
                     if py_eq_dec fill_event py_None
                     then repeat event (Z.to_nat k)
                     else event :: repeat fill_event (Z.to_nat (k - 1)))
                  (Simple._events self)
    /\ Simple.__len__ self' = k * Simple.__len__ self
    /\ Simple.start_step self' = Simple.start_step self * k
    /\ Simple.end_step self' = Simple.end_step self * k
    /\ Simple.steps_per_bar self' = Simple.steps_per_bar self * k
    /\ Simple.steps_per_quarter self' = Simple.steps_per_quarter self * k
    /\ (Simple.end_step self = Simple.start_step self + Simple.__len__ self ->
        Simple.end_step self' = Simple.start_step self' + Simple.__len__ self').
Proof.
  intros Hk. pose proof (increase_resolution_events self k fill_event Hk) as Hev.
  exists (state_of (Simple.increase_resolution self k fill_event)).
  split; [reflexivity|]. split; [exact Hev|].
  assert (Hlen : Simple.__len__
                   (state_of (Simple.increase_resolution self k fill_event))
                 = k * Simple.__len__ self).
  { unfold Simple.__len__. cbn [state_of]. rewrite Hev.
    rewrite (flat_map_length_const _ (Z.to_nat k)); [lia|].
    intros event. destruct (py_eq_dec fill_event py_None).
    - apply repeat_length.
    - cbn [length]. rewrite repeat_length. lia. }
  split; [exact Hlen|].
  split; [reflexivity|]. split; [reflexivity|]. split; [reflexivity|].
  split; [reflexivity|]. intros Hinv. rewrite Hlen.
  unfold Simple.start_step, Simple.end_step, Simple.increase_resolution in *.
  cbn [state_of Simple._start_step Simple._end_step]. rewrite Hinv. lia.
Qed.

(** Increasing the resolution by [k1] and then by [k2], with the same
    [fill_event], is increasing it by [k1 * k2]. *)
Theorem increase_resolution_twice (self : Simple.t E) (k1 k2 : Z)
    (fill_event : E) :
  1 <= k1 -> 1 <= k2 ->
  Simple.increase_resolution
    (state_of (Simple.increase_resolution self k1 fill_event)) k2 fill_event
  = Simple.increase_resolution self (k1 * k2) fill_event.
Proof.
  intros Hk1 Hk2.
  assert (Hev : Simple._events
                  (state_of (Simple.increase_resolution
                     (state_of (Simple.increase_resolution self k1 fill_event))
                     k2 fill_event))
                = Simple._events
                    (state_of (Simple.increase_resolution self (k1 * k2)
                                 fill_event))).
  { rewrite !increase_resolution_events by nia.
    induction (Simple._events self) as [|event events IH]; [reflexivity|].
    cbn [flat_map]. rewrite flat_map_app, IH. f_equal.
    destruct (py_eq_dec fill_event py_None).
    - rewrite flat_map_repeat, concat_repeat_repeat. f_equal. nia.
    - cbn [flat_map]. rewrite flat_map_repeat.
      change (fill_event :: repeat fill_event (Z.to_nat (k2 - 1)))
        with (repeat fill_event (S (Z.to_nat (k2 - 1)))).
      rewrite concat_repeat_repeat. cbn [app]. f_equal.
      rewrite <- repeat_app. f_equal. nia. }
  unfold Simple.increase_resolution in *. cbn [state_of Simple._events] in Hev.
  cbn [state_of Simple._events Simple._pad_event Simple._start_step
       Simple._end_step Simple._steps_per_bar Simple._steps_per_quarter].
  rewrite Hev. f_equal. f_equal; lia.
Qed.

End SimpleSequences.

(** ** The canonical form is unique *)

Section Canonicity.
Context {E : Type} `{PyEvent E}.

Lemma canonical_tail (m : Z) (run : E * Z) (following : list (E * Z)) :
  canonical m (run :: following) -> canonical m following.
Proof.
  destruct following as [|next following]; [intros _; exact I|].
  intros [_ Hcan]. exact Hcan.
Qed.

Lemma expand_cons (event : E) (run_length : Z) (following : list (E * Z)) :
  expand ((event, run_length) :: following)
  = repeat event (Z.to_nat run_length) ++ expand following.
Proof. reflexivity. Qed.

Lemma repeat_positive (event : E) (n : Z) :
  1 <= n -> repeat event (Z.to_nat n) = event :: repeat event (Z.to_nat (n - 1)).
Proof.
  intros Hn. replace (Z.to_nat n) with (S (Z.to_nat (n - 1))) by lia.
  reflexivity.
Qed.

(** A run that is not full is the last of its event: what follows it does
    not start with the same event. *)
Lemma short_run_ends_its_event (m : Z) (event : E) (n k : Z)
    (following : list (E * Z)) (rest : list E) :
  canonical m ((event, n) :: following) ->
  runs_bounded m following ->
  n < m -> 1 <= k ->
  expand following <> repeat event (Z.to_nat k) ++ rest.
Proof.
  intros Hcan Hb Hn Hk Hx.
  rewrite (repeat_positive event k Hk) in Hx.
  destruct following as [|[event' n'] following]; [discriminate|].
  inversion Hb as [|? ? Hn' _]; subst. simpl in Hn'.
  rewrite expand_cons, (repeat_positive event' n') in Hx by lia.
  injection Hx as -> _. destruct Hcan as [Hfull _]. simpl in Hfull.
  specialize (Hfull eq_refl). lia.
Qed.

Lemma canonical_unique_step (m : Z) (event : E) (n1 n2 : Z)
    (t1 t2 : list (E * Z)) :
  canonical m ((event, n1) :: t1) -> runs_bounded m t1 ->
  1 <= n1 -> n1 < n2 -> n2 <= m ->
  repeat event (Z.to_nat n1) ++ expand t1
  <> repeat event (Z.to_nat n2) ++ expand t2.
Proof.
  intros Hcan Hb Hn1 Hlt Hn2 Hx.
  replace n2 with (n1 + (n2 - n1)) in Hx by lia.
  rewrite repeat_add, <- app_assoc in Hx by lia.
  apply app_inv_head in Hx.
  apply (short_run_ends_its_event m event n1 (n2 - n1) t1 (expand t2));
    [assumption | assumption | lia | lia | assumption].
Qed.

Lemma canonical_runs_equal (m : Z) (l1 l2 : list (E * Z)) :
  runs_bounded m l1 -> runs_bounded m l2 ->
  canonical m l1 -> canonical m l2 ->
  expand l1 = expand l2 ->
  l1 = l2.
Proof.
  revert l2. induction l1 as [|[e1 n1] t1 IH]; intros [|[e2 n2] t2] Hb1 Hb2 Hc1 Hc2 Hx.
  - reflexivity.
  - inversion Hb2 as [|? ? Hn2 _]; subst. simpl in Hn2.
    rewrite expand_cons, (repeat_positive e2 n2) in Hx by lia. discriminate.
  - inversion Hb1 as [|? ? Hn1 _]; subst. simpl in Hn1.
    rewrite expand_cons, (repeat_positive e1 n1) in Hx by lia. discriminate.
  - inversion Hb1 as [|? ? Hn1 Hb1']; subst. simpl in Hn1.
    inversion Hb2 as [|? ? Hn2 Hb2']; subst. simpl in Hn2.
    rewrite !expand_cons in Hx.
    assert (He : e1 = e2).
    { rewrite (repeat_positive e1 n1), (repeat_positive e2 n2) in Hx by lia.
      now injection Hx. }
    subst e2.
    destruct (Z.lt_trichotomy n1 n2) as [Hlt | [Heq | Hgt]].
    + exfalso. apply (canonical_unique_step m e1 n1 n2 t1 t2); auto; lia.
    + subst n2. apply app_inv_head in Hx. f_equal.
      apply IH; eauto using canonical_tail.
    + exfalso. apply (canonical_unique_step m e1 n2 n1 t2 t1); auto; lia.
Qed.

(** Two canonical run lists under the same cap, with run lengths between 1
    and the cap, that decode to the same sequence are the same list. *)
Theorem canonical_unique (m : Z) (l1 l2 : list (E * Z)) :
  runs_bounded m l1 -> runs_bounded m l2 ->
  canonical m l1 -> canonical m l2 ->
  expand l1 = expand l2 ->
  l1 = l2.
Proof. apply canonical_runs_equal. Qed.

Lemma set_events_same (self : RLE.t E) :
  RLE.set_events self (RLE._events self) = self.
Proof. now destruct self. Qed.

Lemma standardize_fixes_canonical (self : RLE.t E) :
  well_formed self ->
  canonical (RLE._max_run_length self) (RLE._events self) ->
  RLE._standardize_run_lengths self = self.
Proof.
  intros Hwf Hcan.
  destruct (standardize_spec self Hwf) as (new & -> & Hb & Hcan' & Hx).
  destruct Hwf as [_ Hbs].
  rewrite (canonical_runs_equal _ _ _ Hb Hbs Hcan' Hcan Hx).
  apply set_events_same.
Qed.

(** [_standardize_run_lengths] leaves a well-formed object that is already
    canonical as it is, and standardizing twice is standardizing once. *)
Theorem standardize_idempotent (self : RLE.t E) :
  well_formed self ->
  (canonical (RLE._max_run_length self) (RLE._events self) ->
   RLE._standardize_run_lengths self = self)
  /\ RLE._standardize_run_lengths (RLE._standardize_run_lengths self)
     = RLE._standardize_run_lengths self.
Proof.
  intros Hwf. split; [now apply standardize_fixes_canonical|].
  destruct (standardize_spec self Hwf) as (new & Hstd & Hb & Hcan & _).
  rewrite Hstd. apply standardize_fixes_canonical.
  - apply well_formed_set_events. split; [apply Hwf | exact Hb].
  - exact Hcan.
Qed.

(** Two well-formed objects with the same cap that decode to the same
    sequence have the same runs once standardized. *)
Theorem same_content_same_standard_form (s1 s2 : RLE.t E) :
  well_formed s1 -> well_formed s2 ->
  RLE._max_run_length s1 = RLE._max_run_length s2 ->
  expand (RLE._events s1) = expand (RLE._events s2) ->
  RLE._events (RLE._standardize_run_lengths s1)
  = RLE._events (RLE._standardize_run_lengths s2).
Proof.
  intros Hwf1 Hwf2 Hm Hx.
  destruct (standardize_spec s1 Hwf1) as (new1 & -> & Hb1 & Hc1 & Hx1).
  destruct (standardize_spec s2 Hwf2) as (new2 & -> & Hb2 & Hc2 & Hx2).
  cbn [RLE.set_events RLE._events]. rewrite <- Hm in Hb2, Hc2.
  apply (canonical_runs_equal _ _ _ Hb1 Hb2 Hc1 Hc2). congruence.
Qed.

(** Standardizing a well-formed object gives the runs that the constructor
    gives for the sequence the object decodes to. *)
Theorem standardize_is_encoding (self : RLE.t E) (base_events : Simple.t E) :
  well_formed self ->
  Simple._events base_events = expand (RLE._events self) ->
  exists encoded,
    RLE.__init__ (RLE.IsSimple base_events) (RLE._max_run_length self)
    = Ok encoded
    /\ RLE._events encoded = RLE._events (RLE._standardize_run_lengths self).
Proof.
  intros Hwf Hbase.
  destruct (init_runs base_events (RLE._max_run_length self))
    as (events & Hinit & Hx & _ & Hcan & Hb).
  destruct (standardize_spec self Hwf) as (new & -> & Hb' & Hcan' & Hx').
  eexists. split; [exact Hinit|]. cbn [RLE.set_events RLE._events].
  apply (canonical_runs_equal _ _ _ (Hb (proj1 Hwf)) Hb' Hcan Hcan'). congruence.
Qed.

(** The round trip from the encoded side: decoding a well-formed canonical
    object into an empty sequence and encoding that sequence with the same
    cap gives the runs of the object back. *)
Theorem encode_decode_round_trip (self : RLE.t E) (target : Simple.t E) :
  well_formed self ->
  canonical (RLE._max_run_length self) (RLE._events self) ->
  Simple.__len__ target = 0 ->
  exists target' encoded,
    RLE.decode self target = Returned (self, target')
    /\ RLE.__init__ (RLE.IsSimple target') (RLE._max_run_length self)
       = Ok encoded
    /\ RLE._events encoded = RLE._events self
    /\ RLE.start_step encoded = Simple.start_step target.
Proof.
  intros [Hm Hb] Hcan Hempty.
  assert (Hnil : Simple._events target = []).
  { unfold Simple.__len__ in Hempty.
    destruct (Simple._events target); [reflexivity | discriminate]. }
  destruct (init_runs (RLE.decode_loop (RLE._events self) target)
              (RLE._max_run_length self))
    as (events & Hinit & Hx & _ & Hcan' & Hb').
  eexists. eexists. split; [|split; [exact Hinit|]].
  - unfold RLE.decode, Simple.truth_value. rewrite Hempty. reflexivity.
  - rewrite decode_loop_spec in Hx. cbn [Simple._events] in Hx.
    rewrite Hnil in Hx. cbn [app] in Hx. cbn [RLE._events RLE.start_step
      RLE._start_step]. split.
    + apply (canonical_runs_equal _ _ _ (Hb' Hm) Hb Hcan' Hcan Hx).
    + rewrite decode_loop_spec. reflexivity.
Qed.

End Canonicity.

(** ** What the resizing loops remove and add *)

Section ResizingLoops.
Context {E : Type} `{PyEvent E}.

Lemma num_steps_bounded (m : Z) (self : RLE.t E) :
  runs_bounded m (RLE._events self) ->
  RLE.num_steps self = Z.of_nat (length (expand (RLE._events self))).
Proof.
  intros Hb. apply num_steps_expand.
  eapply Forall_impl; [|exact Hb]. simpl. intros run Hrun. lia.
Qed.

Lemma firstn_exact (l1 l2 : list E) (n : nat) :
  n = length l1 -> firstn n (l1 ++ l2) = l1.
Proof.
  intros ->. rewrite firstn_app, Nat.sub_diag, firstn_all. cbn [firstn].
  apply app_nil_r.
Qed.

Lemma skipn_exact (l1 l2 : list E) (n : nat) :
  n = length l1 -> skipn n (l1 ++ l2) = l2.
Proof.
  intros ->. rewrite skipn_app, Nat.sub_diag, skipn_all. reflexivity.
Qed.

Lemma padding_loop_expand (fuel : nat) (self : RLE.t E) :
  forall steps events padded,
    1 <= RLE._max_run_length self ->
    RLE.padding_loop fuel self steps events = Some padded ->
    expand padded
    = expand events ++ repeat (RLE._pad_event self) (Z.to_nat steps).
Proof.
  induction fuel as [|fuel IH]; intros steps events padded Hm Hloop;
    simpl in Hloop; [discriminate|].
  destruct (steps >? 0) eqn:Hpos.
  - apply gtb_true in Hpos. apply IH in Hloop; [|assumption].
    rewrite Hloop, expand_app, expand_one, <- app_assoc. f_equal.
    rewrite <- repeat_add by lia. f_equal. lia.
  - apply gtb_false in Hpos. injection Hloop as <-.
    replace (Z.to_nat steps) with O by lia. now rewrite app_nil_r.
Qed.

Lemma padding_loop_canonical (fuel : nat) (self : RLE.t E) :
  forall steps events padded,
    canonical (RLE._max_run_length self) events ->
    (0 < steps -> forall y, py_last events = Some y ->
                            snd y = RLE._max_run_length self) ->
    RLE.padding_loop fuel self steps events = Some padded ->
    canonical (RLE._max_run_length self) padded.
Proof.
  induction fuel as [|fuel IH]; intros steps events padded Hcan Hlast Hloop;
    simpl in Hloop; [discriminate|].
  destruct (steps >? 0) eqn:Hpos.
  - apply gtb_true in Hpos. apply IH in Hloop; [assumption | |].
    + apply canonical_snoc. split; [assumption|].
      intros y Hy _. now apply Hlast.
    + intros Hrest y Hy. rewrite py_last_snoc in Hy. injection Hy as <-.
      simpl. lia.
  - now injection Hloop as <-.
Qed.

Lemma padding_loop_never_returns (fuel : nat) (self : RLE.t E) :
  forall steps events,
    RLE._max_run_length self <= 0 -> 0 < steps ->
    RLE.padding_loop fuel self steps events = None.
Proof.
  induction fuel as [|fuel IH]; intros steps events Hm Hsteps;
    [reflexivity|].
  simpl. replace (steps >? 0) with true by (symmetry; apply gtb_true; lia).
  apply IH; [assumption | lia].
Qed.

(** The removal loops change [self._events] and nothing else. *)
Lemma shrink_left_loop_frame (fuel : nat) :
  forall (self : RLE.t E) steps_to_remove out,
    RLE.shrink_left_loop fuel self steps_to_remove = Some out ->
    state_of out = RLE.set_events self (RLE._events (state_of out)).
Proof.
  induction fuel as [|fuel IH]; intros self rem out Hloop;
    simpl in Hloop; [discriminate|].
  destruct (rem >? 0);
    [|injection Hloop as <-; simpl; now rewrite set_events_same].
  destruct (RLE._events self) as [|[event rl] following] eqn:Hev.
  - injection Hloop as <-. simpl. now rewrite set_events_same.
  - destruct (rl >? rem); apply IH in Hloop; exact Hloop.
Qed.

Lemma shrink_right_loop_frame (fuel : nat) :
  forall (self : RLE.t E) steps_to_remove out,
    RLE.shrink_right_loop fuel self steps_to_remove = Some out ->
    state_of out = RLE.set_events self (RLE._events (state_of out)).
Proof.
  induction fuel as [|fuel IH]; intros self rem out Hloop;
    simpl in Hloop; [discriminate|].
  destruct (rem >? 0);
    [|injection Hloop as <-; simpl; now rewrite set_events_same].
  destruct (py_last (RLE._events self)) as [[event rl]|].
  - destruct (rl >? rem); apply IH in Hloop; exact Hloop.
  - injection Hloop as <-. simpl. now rewrite set_events_same.
Qed.

(** The loop that removes from the right, asked for no more steps than
    there are: it returns, and the sequence it leaves is the one before
    without its last [steps_to_remove] events. *)
Lemma shrink_right_loop_drops (m : Z) (fuel : nat) :
  forall (self : RLE.t E) steps_to_remove out,
    runs_bounded m (RLE._events self) ->
    steps_to_remove <= Z.of_nat (length (expand (RLE._events self))) ->
    RLE.shrink_right_loop fuel self steps_to_remove = Some out ->
    exists kept dropped,
      out = Returned (RLE.set_events self kept)
      /\ runs_bounded m kept
      /\ expand (RLE._events self) = expand kept ++ dropped
      /\ length dropped = Z.to_nat steps_to_remove.
Proof.
  induction fuel as [|fuel IH]; intros self rem out Hb Hrem Hloop;
    simpl in Hloop; [discriminate|].
  destruct (rem >? 0) eqn:Hpos.
  - apply gtb_true in Hpos.
    destruct (py_last (RLE._events self)) as [[event rl]|] eqn:Hlast.
    + pose proof (py_last_some _ _ Hlast) as Hsplit.
      remember (removelast (RLE._events self)) as front eqn:Hfront.
      clear Hfront. rewrite Hsplit in Hb, Hrem |- *.
      apply runs_bounded_app in Hb. destruct Hb as [Hbf Hrun].
      apply runs_bounded_one in Hrun.
      rewrite expand_app, expand_one, length_app, repeat_length in Hrem.
      rewrite expand_app, expand_one.
      destruct (rl >? rem) eqn:Hcmp.
      * apply gtb_true in Hcmp.
        apply IH in Hloop; cbn [RLE.set_events RLE._events] in *.
        -- destruct Hloop as (kept & dropped & -> & Hbk & Hx & Hlen).
           destruct dropped; [|discriminate]. rewrite app_nil_r in Hx.
           exists kept, (repeat event (Z.to_nat rem)).
           split; [reflexivity|]. split; [assumption|].
           split; [|apply repeat_length].
           rewrite <- Hx, expand_app, expand_one, <- app_assoc. f_equal.
           rewrite <- repeat_add by lia. f_equal. lia.
        -- apply runs_bounded_app. split; [assumption|].
           apply runs_bounded_one. lia.
        -- lia.
      * apply gtb_false in Hcmp.
        apply IH in Hloop; cbn [RLE.set_events RLE._events] in *.
        -- destruct Hloop as (kept & dropped & -> & Hbk & Hx & Hlen).
           exists kept, (dropped ++ repeat event (Z.to_nat rl)).
           split; [reflexivity|]. split; [assumption|].
           split; [now rewrite Hx, <- app_assoc|].
           rewrite length_app, repeat_length. lia.
        -- assumption.
        -- lia.
    + apply py_last_none in Hlast. rewrite Hlast in Hrem. simpl in Hrem. lia.
  - apply gtb_false in Hpos. injection Hloop as <-.
    exists (RLE._events self), []. rewrite set_events_same, app_nil_r.
    split; [reflexivity|]. split; [assumption|]. split; [reflexivity|].
    simpl. lia.
Qed.

(** Asked for more steps than there are, it removes every run and then
    raises [IndexError] at [self._events[-1]]. *)
Lemma shrink_right_loop_raises (m : Z) (fuel : nat) :
  forall (self : RLE.t E) steps_to_remove out,
    runs_bounded m (RLE._events self) ->
    Z.of_nat (length (expand (RLE._events self))) < steps_to_remove ->
    RLE.shrink_right_loop fuel self steps_to_remove = Some out ->
    out = Raised IndexError (RLE.set_events self []).
Proof.
  induction fuel as [|fuel IH]; intros self rem out Hb Hrem Hloop;
    simpl in Hloop; [discriminate|].
  replace (rem >? 0) with true in Hloop by (symmetry; apply gtb_true; lia).
  destruct (py_last (RLE._events self)) as [[event rl]|] eqn:Hlast.
  - pose proof (py_last_some _ _ Hlast) as Hsplit.
    remember (removelast (RLE._events self)) as front eqn:Hfront.
    clear Hfront. rewrite Hsplit in Hb, Hrem.
    apply runs_bounded_app in Hb. destruct Hb as [Hbf Hrun].
    apply runs_bounded_one in Hrun.
    rewrite expand_app, expand_one, length_app, repeat_length in Hrem.
    replace (rl >? rem) with false in Hloop
      by (symmetry; apply gtb_false; lia).
    apply IH in Hloop; cbn [RLE.set_events RLE._events] in *;
      [exact Hloop | assumption | lia].
  - apply py_last_none in Hlast. injection Hloop as <-.
    rewrite <- Hlast. now rewrite set_events_same.
Qed.

(** The loop that removes from the left never drops a run: it takes the
    steps to remove modulo the length of the first run off that run. *)
Lemma shrink_left_loop_result (fuel : nat) :
  forall (self : RLE.t E) steps_to_remove out event run_length following,
    RLE._events self = (event, run_length) :: following ->
    1 <= run_length -> 0 <= steps_to_remove ->
    RLE.shrink_left_loop fuel self steps_to_remove = Some out ->
    out = Returned
            (RLE.set_events self
               ((event, run_length - steps_to_remove mod run_length)
                :: following)).
Proof.
  induction fuel as [|fuel IH];
    intros self rem out event rl following Hev Hrl Hrem Hloop;
    simpl in Hloop; [discriminate|].
  destruct (rem >? 0) eqn:Hpos.
  - apply gtb_true in Hpos. rewrite Hev in Hloop.
    destruct (rl >? rem) eqn:Hcmp.
    + apply gtb_true in Hcmp.
      apply (IH _ _ _ event (rl - rem) following) in Hloop;
        [| reflexivity | lia | lia].
      rewrite Hloop. cbn [RLE.set_events RLE._pad_event RLE._max_run_length
        RLE._start_step RLE._steps_per_quarter].
      rewrite Z.mod_0_l by lia. rewrite Z.mod_small by lia.
      now rewrite Z.sub_0_r.
    + apply gtb_false in Hcmp.
      apply (IH _ _ _ event rl following) in Hloop;
        [| reflexivity | lia | lia].
      rewrite Hloop. cbn [RLE.set_events RLE._pad_event RLE._max_run_length
        RLE._start_step RLE._steps_per_quarter RLE._events].
      replace ((rem - rl) mod rl) with (rem mod rl); [reflexivity|].
      rewrite <- (Z_mod_plus_full (rem - rl) 1 rl). f_equal. lia.
  - apply gtb_false in Hpos. injection Hloop as <-.
    replace rem with 0 by lia. rewrite Z.mod_0_l by lia.
    rewrite Z.sub_0_r, <- Hev. now rewrite set_events_same.
Qed.

End ResizingLoops.

(** ** What [set_length] does to a well-formed object *)

Section ResizingBehaviour.
Context {E : Type} `{PyEvent E}.

(** What standardization keeps of an object. *)
Lemma standardize_summary (self : RLE.t E) :
  well_formed self ->
  expand (RLE._events (RLE._standardize_run_lengths self))
  = expand (RLE._events self)
  /\ RLE.num_steps (RLE._standardize_run_lengths self)
     = Z.of_nat (length (expand (RLE._events self)))
  /\ RLE.start_step (RLE._standardize_run_lengths self) = RLE.start_step self.
Proof.
  intros Hwf.
  destruct (standardize_spec self Hwf) as (new & -> & Hb & _ & Hx).
  split; [exact Hx|]. split; [|reflexivity].
  rewrite (num_steps_bounded (RLE._max_run_length self)); [|exact Hb].
  cbn [RLE.set_events RLE._events]. now rewrite Hx.
Qed.

(** [set_length] to more steps than there are, on a well-formed object: the
    call returns; the decoded sequence has got the missing pad events at the
    chosen end; there are [steps] steps; from the right [start_step] stays,
    from the left [end_step] stays. *)
Theorem set_length_grows (self : RLE.t E) (steps : Z) (from_left : bool) :
  well_formed self ->
  RLE.num_steps self < steps ->
  (exists fuel out, RLE.set_length fuel self steps from_left = Some out)
  /\ forall fuel out,
       RLE.set_length fuel self steps from_left = Some out ->
       exists self',
         out = Returned self'
         /\ expand (RLE._events self')
            = (if from_left
               then repeat (RLE._pad_event self)
                           (Z.to_nat (steps - RLE.num_steps self))
                    ++ expand (RLE._events self)
               else expand (RLE._events self)
                    ++ repeat (RLE._pad_event self)
                              (Z.to_nat (steps - RLE.num_steps self)))
         /\ RLE.num_steps self' = steps
         /\ RLE.start_step self'
            = (if from_left
               then RLE.start_step self - (steps - RLE.num_steps self)
               else RLE.start_step self)
         /\ RLE.end_step self'
            = (if from_left then RLE.end_step self
               else RLE.start_step self + steps).
Proof.
  intros Hwf Hgrow. split.
  { eexists. apply (set_length_returns _ self steps from_left Hwf).
    apply Nat.lt_succ_diag_r. }
  intros fuel out Hcall. pose proof Hwf as [Hm Hb].
  pose proof (num_steps_bounded _ self Hb) as Hsteps.
  unfold RLE.set_length in Hcall.
  replace (steps >? RLE.num_steps self) with true in Hcall
    by (symmetry; apply gtb_true; lia).
  unfold RLE._padding in Hcall. destruct from_left.
  - destruct (RLE.padding_loop fuel _ _ []) as [padding|] eqn:Hpad;
      [|discriminate].
    injection Hcall as <-.
    pose proof (padding_loop_expand fuel
                  (RLE.set_start_step self
                     (RLE._start_step self - (steps - RLE.num_steps self)))
                  _ _ _ Hm Hpad) as Hpx.
    apply padding_loop_bounded in Hpad; [| constructor | exact Hm].
    cbn [RLE.set_start_step RLE._pad_event RLE._max_run_length expand
         flat_map app] in Hpx, Hpad.
    match goal with
    | |- exists s, Returned (RLE._standardize_run_lengths ?X) = _ /\ _ =>
        assert (HwfX : well_formed X)
          by (split; [exact Hm | apply runs_bounded_app; now split]);
        destruct (standardize_summary X HwfX) as (Hx & Hn & Hs)
    end.
    eexists. split; [reflexivity|].
    cbn [RLE.set_events RLE.set_start_step RLE._events] in Hx, Hn.
    rewrite expand_app, Hpx in Hx, Hn. split; [exact Hx|].
    rewrite length_app, repeat_length in Hn.
    unfold RLE.end_step. rewrite Hs, Hn.
    unfold RLE.start_step. cbn [RLE.set_events RLE.set_start_step
      RLE._start_step]. repeat split; lia.
  - destruct (RLE.padding_loop fuel _ _ []) as [padding|] eqn:Hpad;
      [|discriminate].
    injection Hcall as <-.
    pose proof (padding_loop_expand _ _ _ _ _ Hm Hpad) as Hpx.
    apply padding_loop_bounded in Hpad; [| constructor | exact Hm].
    cbn [expand flat_map app] in Hpx.
    match goal with
    | |- exists s, Returned (RLE._standardize_run_lengths ?X) = _ /\ _ =>
        assert (HwfX : well_formed X)
          by (split; [exact Hm | apply runs_bounded_app; now split]);
        destruct (standardize_summary X HwfX) as (Hx & Hn & Hs)
    end.
    eexists. split; [reflexivity|].
    cbn [RLE.set_events RLE._events] in Hx, Hn.
    rewrite expand_app, Hpx in Hx, Hn. split; [exact Hx|].
    rewrite length_app, repeat_length in Hn.
    unfold RLE.end_step. rewrite Hs, Hn.
    unfold RLE.start_step. cbn [RLE.set_events RLE._start_step].
    repeat split; lia.
Qed.

(** [set_length] from the right to a length between 0 and the number of
    steps, on a well-formed object: the call returns; the decoded sequence
    is cut to its first [steps] events; [start_step] stays and [end_step] is
    [start_step + steps]. *)
Theorem set_length_shrinks_from_right (self : RLE.t E) (steps : Z) :
  well_formed self ->
  0 <= steps <= RLE.num_steps self ->
  (exists fuel out, RLE.set_length fuel self steps false = Some out)
  /\ forall fuel out,
       RLE.set_length fuel self steps false = Some out ->
       exists self',
         out = Returned self'
         /\ expand (RLE._events self')
            = firstn (Z.to_nat steps) (expand (RLE._events self))
         /\ RLE.num_steps self' = steps
         /\ RLE.start_step self' = RLE.start_step self
         /\ RLE.end_step self' = RLE.start_step self + steps.
Proof.
  intros Hwf Hsteps. split.
  { eexists. apply (set_length_returns _ self steps false Hwf).
    apply Nat.lt_succ_diag_r. }
  intros fuel out Hcall. pose proof Hwf as [Hm Hb].
  pose proof (num_steps_bounded _ self Hb) as Hnum.
  unfold RLE.set_length in Hcall.
  replace (steps >? RLE.num_steps self) with false in Hcall
    by (symmetry; apply gtb_false; lia).
  destruct (RLE.shrink_right_loop fuel _ _) as [out0|] eqn:Hloop;
    [|discriminate].
  apply (shrink_right_loop_drops (RLE._max_run_length self)) in Hloop;
    [| exact Hb | lia].
  destruct Hloop as (kept & dropped & -> & Hbk & Hx & Hlen).
  injection Hcall as <-.
  assert (HwfX : well_formed (RLE.set_events self kept)) by now split.
  destruct (standardize_summary _ HwfX) as (Hxs & Hn & Hs).
  cbn [RLE.set_events RLE._events] in Hxs, Hn.
  assert (Hkept : length (expand kept) = Z.to_nat steps).
  { apply (f_equal (@length E)) in Hx. rewrite length_app in Hx. lia. }
  eexists. split; [reflexivity|]. split.
  - rewrite Hxs, Hx. symmetry. now apply firstn_exact.
  - unfold RLE.end_step. rewrite Hs, Hn, Hkept. unfold RLE.start_step.
    cbn [RLE.set_events RLE._start_step]. repeat split; lia.
Qed.

(** [set_length] from the right to a negative length, on a well-formed
    object: every run is removed, then [self._events[-1]] raises
    [IndexError]; the object is left with no run and its [start_step]. *)
Theorem set_length_negative_from_right (self : RLE.t E) (steps : Z) :
  well_formed self ->
  steps < 0 ->
  (exists fuel out, RLE.set_length fuel self steps false = Some out)
  /\ forall fuel out,
       RLE.set_length fuel self steps false = Some out ->
       out = Raised IndexError (RLE.set_events self []).
Proof.
  intros Hwf Hsteps. split.
  { eexists. apply (set_length_returns _ self steps false Hwf).
    apply Nat.lt_succ_diag_r. }
  intros fuel out Hcall. pose proof Hwf as [Hm Hb].
  pose proof (num_steps_bounded _ self Hb) as Hnum.
  unfold RLE.set_length in Hcall.
  replace (steps >? RLE.num_steps self) with false in Hcall
    by (symmetry; apply gtb_false; lia).
  destruct (RLE.shrink_right_loop fuel _ _) as [out0|] eqn:Hloop;
    [|discriminate].
  apply (shrink_right_loop_raises (RLE._max_run_length self)) in Hloop;
    [| exact Hb | lia].
  subst out0. now injection Hcall as <-.
Qed.

(** [set_length] from the left to no more steps than there are, on a
    well-formed object with a first run of length [run_length]: the call
    returns, having moved [start_step] by the whole excess but removed only
    the excess modulo [run_length] from the front of the decoded sequence.
    When the excess is less than [run_length], that is the excess: there
    are [steps] steps left and [end_step] has stayed. *)
Theorem set_length_shrinks_from_left (self : RLE.t E) (steps : Z)
    (event : E) (run_length : Z) (following : list (E * Z)) :
  well_formed self ->
  RLE._events self = (event, run_length) :: following ->
  steps <= RLE.num_steps self ->
  (exists fuel out, RLE.set_length fuel self steps true = Some out)
  /\ forall fuel out,
       RLE.set_length fuel self steps true = Some out ->
       exists self',
         out = Returned self'
         /\ expand (RLE._events self')
            = skipn (Z.to_nat ((RLE.num_steps self - steps) mod run_length))
                    (expand (RLE._events self))
         /\ RLE.num_steps self'
            = RLE.num_steps self - (RLE.num_steps self - steps) mod run_length
         /\ RLE.start_step self'
            = RLE.start_step self + (RLE.num_steps self - steps)
         /\ (RLE.num_steps self - steps < run_length ->
             RLE.num_steps self' = steps
             /\ RLE.end_step self' = RLE.end_step self).
Proof.
  intros Hwf Hev Hsteps. split.
  { eexists. apply (set_length_returns _ self steps true Hwf).
    apply Nat.lt_succ_diag_r. }
  intros fuel out Hcall. pose proof Hwf as [Hm Hb].
  pose proof (num_steps_bounded _ self Hb) as Hnum.
  assert (Hrl : 1 <= run_length <= RLE._max_run_length self).
  { rewrite Hev in Hb. now inversion Hb. }
  assert (Hbf : runs_bounded (RLE._max_run_length self) following).
  { rewrite Hev in Hb. now inversion Hb. }
  unfold RLE.set_length in Hcall.
  replace (steps >? RLE.num_steps self) with false in Hcall
    by (symmetry; apply gtb_false; lia).
  destruct (RLE.shrink_left_loop fuel _ _) as [out0|] eqn:Hloop;
    [|discriminate].
  apply (shrink_left_loop_result _ _ _ _ event run_length following) in Hloop;
    [| exact Hev | lia | lia].
  subst out0. injection Hcall as <-.
  set (excess := RLE.num_steps self - steps) in *.
  pose proof (Z.mod_pos_bound excess run_length ltac:(lia)) as Hmod.
  match goal with
  | |- exists s, Returned (RLE._standardize_run_lengths ?X) = _ /\ _ =>
      assert (HwfX : well_formed X)
        by (split; [exact Hm | constructor; [simpl; lia | exact Hbf]]);
      destruct (standardize_summary X HwfX) as (Hx & Hn & Hs)
  end.
  cbn [RLE.set_events RLE.set_start_step RLE._events] in Hx, Hn.
  assert (Hsplit : expand (RLE._events self)
                   = repeat event (Z.to_nat (excess mod run_length))
                     ++ expand ((event, run_length - excess mod run_length)
                                :: following)).
  { rewrite Hev, !expand_cons, app_assoc. f_equal.
    rewrite <- repeat_add by lia. f_equal. lia. }
  eexists. split; [reflexivity|]. split.
  { rewrite Hx, Hsplit. symmetry. apply skipn_exact. now rewrite repeat_length. }
  assert (Hn' : RLE.num_steps
                  (RLE._standardize_run_lengths
                     (RLE.set_events
                        (RLE.set_start_step self (RLE._start_step self + excess))
                        ((event, run_length - excess mod run_length)
                         :: following)))
                = RLE.num_steps self - excess mod run_length).
  { rewrite Hn. apply (f_equal (@length E)) in Hsplit.
    rewrite length_app, repeat_length in Hsplit. lia. }
  split; [exact Hn'|]. split; [rewrite Hs; reflexivity|].
  intros Hsmall. unfold RLE.end_step. rewrite Hs, Hn'.
  unfold RLE.start_step. cbn [RLE.set_events RLE.set_start_step RLE._start_step].
  rewrite Z.mod_small by lia. split; lia.
Qed.

(** [set_length] to the number of steps an object has, whatever the side,
    returns the object as it is when the object is well-formed and
    canonical. *)
Theorem set_length_to_current_length (self : RLE.t E) (fuel : nat)
    (from_left : bool) :
  well_formed self ->
  canonical (RLE._max_run_length self) (RLE._events self) ->
  RLE.set_length (S fuel) self (RLE.num_steps self) from_left
  = Some (Returned self).
Proof.
  intros Hwf Hcan. unfold RLE.set_length.
  replace (RLE.num_steps self >? RLE.num_steps self) with false
    by (symmetry; apply gtb_false; lia).
  rewrite Z.sub_diag, Z.add_0_r.
  assert (Hsame : RLE.set_start_step self (RLE._start_step self) = self)
    by now destruct self.
  rewrite Hsame. destruct from_left; cbn [RLE.shrink_left_loop
    RLE.shrink_right_loop Z.gtb Z.compare];
    now rewrite standardize_fixes_canonical.
Qed.

(** With a cap below 1, which the constructor accepts, [set_length] to more
    steps than there are never returns: the padding loop adds runs of the
    cap's length and the steps to add do not go down. *)
Theorem set_length_grow_never_returns (self : RLE.t E) (steps : Z)
    (from_left : bool) :
  RLE._max_run_length self <= 0 ->
  RLE.num_steps self < steps ->
  forall fuel, RLE.set_length fuel self steps from_left = None.
Proof.
  intros Hm Hgrow fuel. unfold RLE.set_length, RLE._padding.
  replace (steps >? RLE.num_steps self) with true
    by (symmetry; apply gtb_true; lia).
  destruct from_left; rewrite padding_loop_never_returns;
    try reflexivity; try assumption; lia.
Qed.

(** [_padding] under a cap of at least 1 returns runs of the pad event that
    consume exactly [steps] steps, each of length between 1 and the cap, in
    canonical form: full runs, then what is left. *)
Theorem padding_consumes_steps (self : RLE.t E) (steps : Z) :
  1 <= RLE._max_run_length self ->
  (exists fuel padding, RLE._padding fuel self steps = Some padding)
  /\ forall fuel padding,
       RLE._padding fuel self steps = Some padding ->
       expand padding = repeat (RLE._pad_event self) (Z.to_nat steps)
       /\ runs_bounded (RLE._max_run_length self) padding
       /\ canonical (RLE._max_run_length self) padding.
Proof.
  intros Hm. unfold RLE._padding. split.
  - eexists. apply (padding_loop_returns _ self steps [] Hm).
    apply Nat.lt_succ_diag_r.
  - intros fuel padding Hpad.
    split; [apply (padding_loop_expand _ _ _ _ _ Hm Hpad)|].
    split; [apply (padding_loop_bounded _ _ _ _ _ (Forall_nil _) Hm Hpad)|].
    apply (padding_loop_canonical fuel self steps [] padding);
      [exact I | intros _ y Hy; discriminate | exact Hpad].
Qed.

End ResizingBehaviour.

(** ** Construction, validation and access *)

Section Access.
Context {E : Type} `{PyEvent E}.

(** The constructor on a [SimpleEventSequence], whatever the cap: it
    returns an object in canonical form that has as many steps as the base
    has events, starts where the base starts and ends [len(base)] steps
    later, with the base's [steps_per_quarter] and the cap as given. *)
Theorem constructor_encoding (base_events : Simple.t E) (m : Z) :
  exists self,
    RLE.__init__ (RLE.IsSimple base_events) m = Ok self
    /\ RLE._max_run_length self = m
    /\ canonical m (RLE._events self)
    /\ RLE.num_steps self = Simple.__len__ base_events
    /\ RLE.start_step self = Simple.start_step base_events
    /\ RLE.end_step self
       = Simple.start_step base_events + Simple.__len__ base_events
    /\ RLE.steps_per_quarter self = Simple.steps_per_quarter base_events.
Proof.
  destruct (init_runs base_events m) as (events & Hinit & Hx & Hpos & Hcan & _).
  eexists. split; [exact Hinit|]. split; [reflexivity|].
  split; [exact Hcan|].
  assert (Hn : RLE.num_steps
                 (RLE.mk (Simple._pad_event base_events) m events
                    (Simple._start_step base_events)
                    (Simple._steps_per_quarter base_events))
               = Simple.__len__ base_events).
  { rewrite num_steps_expand.
    - cbn [RLE._events]. now rewrite Hx.
    - eapply Forall_impl; [|exact Hpos]. simpl. intros run Hrun. lia. }
  split; [exact Hn|]. split; [reflexivity|]. split; [|reflexivity].
  unfold RLE.end_step. now rewrite Hn.
Qed.

(** As the docstring of [num_steps] says: when every run has at least one
    step, there are at least as many steps as runs. *)
Theorem num_steps_at_least_len (self : RLE.t E) :
  Forall (fun run => 1 <= snd run) (RLE._events self) ->
  RLE.__len__ self <= RLE.num_steps self.
Proof.
  unfold RLE.__len__, RLE.num_steps.
  induction (RLE._events self) as [|run events IH]; intros Hpos; [simpl; lia|].
  inversion Hpos as [|? ? Hrun Hpos']; subst.
  cbn [fold_left length]. rewrite sum_from. specialize (IH Hpos'). lia.
Qed.

(** [append] returns exactly when it is given a pair whose second component
    is an integer between 1 and [max_run_length]; otherwise it raises
    [ValueError] and leaves the object as it was. *)
Theorem append_raises_iff (self : RLE.t E) (event : RLE.event_arg E) :
  (raised (RLE.append self event) = false
   <-> exists base_event run_length,
         event = RLE.IsPair base_event (RLE.IsInt run_length)
         /\ 1 <= run_length <= RLE._max_run_length self)
  /\ (raised (RLE.append self event) = true ->
      exists msg, RLE.append self event = Raised (ValueError msg) self).
Proof.
  destruct event as [base_event [run_length|]|]; simpl.
  - destruct (run_length <? 1) eqn:Hlow; simpl.
    + apply Z.ltb_lt in Hlow. split; [split; [discriminate|] | eauto].
      intros (e & n & [= _ <-] & Hn). lia.
    + apply Z.ltb_ge in Hlow.
      destruct (run_length >? RLE._max_run_length self) eqn:Hhigh; simpl.
      * apply gtb_true in Hhigh. split; [split; [discriminate|] | eauto].
        intros (e & n & [= _ <-] & Hn). lia.
      * apply gtb_false in Hhigh. split; [|discriminate].
        split; [|reflexivity]. intros _. exists base_event, run_length.
        split; [reflexivity | lia].
  - split; [split; [discriminate|] | eauto].
    intros (e & n & [=] & _).
  - split; [split; [discriminate|] | eauto].
    intros (e & n & [=] & _).
Qed.

Lemma py_getitem_nonnegative {A : Type} (l : list A) (i : Z) :
  0 <= i < Z.of_nat (length l) ->
  py_getitem l i = nth_error l (Z.to_nat i).
Proof.
  intros Hi. unfold py_getitem. cbv zeta.
  assert (Hneg : (i <? 0) = false) by (apply Z.ltb_ge; lia).
  rewrite Hneg. cbv iota. rewrite Hneg.
  replace (i >=? Z.of_nat (length l)) with false
    by (symmetry; apply geb_false; lia).
  reflexivity.
Qed.

Lemma py_getitem_negative {A : Type} (l : list A) (i : Z) :
  - Z.of_nat (length l) <= i < 0 ->
  py_getitem l i = nth_error l (Z.to_nat (i + Z.of_nat (length l))).
Proof.
  intros Hi. unfold py_getitem. cbv zeta.
  replace (i <? 0) with true by (symmetry; apply Z.ltb_lt; lia). cbv iota.
  replace (i + Z.of_nat (length l) <? 0) with false
    by (symmetry; apply Z.ltb_ge; lia).
  replace (i + Z.of_nat (length l) >=? Z.of_nat (length l)) with false
    by (symmetry; apply geb_false; lia).
  reflexivity.
Qed.

Lemma py_getitem_last {A : Type} (l : list A) (x : A) :
  py_getitem (l ++ [x]) (-1) = Some x
  /\ py_getitem (l ++ [x]) (Z.of_nat (length l)) = Some x.
Proof.
  assert (Hlen : length (l ++ [x]) = S (length l))
    by (rewrite length_app; simpl; lia).
  split.
  - rewrite py_getitem_negative by lia. rewrite Hlen.
    replace (Z.to_nat (-1 + Z.of_nat (S (length l)))) with (length l) by lia.
    now rewrite nth_error_app2, Nat.sub_diag by lia.
  - rewrite py_getitem_nonnegative by lia. rewrite Nat2Z.id.
    now rewrite nth_error_app2, Nat.sub_diag by lia.
Qed.

Lemma py_getitem_front {A : Type} (l : list A) (x : A) (i : Z) :
  0 <= i < Z.of_nat (length l) ->
  py_getitem (l ++ [x]) i = py_getitem l i.
Proof.
  intros Hi.
  assert (Hlen : length (l ++ [x]) = S (length l))
    by (rewrite length_app; simpl; lia).
  rewrite !py_getitem_nonnegative by lia. apply nth_error_app1. lia.
Qed.

(** After [append] the event is read back at index [-1] and at the index
    that was the length; the indices below it read what they read before;
    and the index that is now the length raises [IndexError]. *)
Theorem simple_getitem_after_append (base : Simple.t E) (event : E) :
  Simple.__getitem__ (Simple.append base event) (-1) = Ok event
  /\ Simple.__getitem__ (Simple.append base event) (Simple.__len__ base)
     = Ok event
  /\ (forall i, 0 <= i < Simple.__len__ base ->
        Simple.__getitem__ (Simple.append base event) i
        = Simple.__getitem__ base i)
  /\ Simple.__getitem__ (Simple.append base event)
       (Simple.__len__ (Simple.append base event))
     = Error IndexError.
Proof.
  unfold Simple.__getitem__, Simple.append, Simple.__len__.
  cbn [Simple._events].
  destruct (py_getitem_last (Simple._events base) event) as [-> ->].
  split; [reflexivity|]. split; [reflexivity|]. split.
  - intros i Hi. now rewrite py_getitem_front.
  - unfold py_getitem. cbv zeta.
    assert (Hneg : (Z.of_nat (length (Simple._events base ++ [event])) <? 0)
                   = false) by (apply Z.ltb_ge; lia).
    rewrite Hneg. cbv iota. rewrite Hneg.
    replace (Z.of_nat (length (Simple._events base ++ [event]))
             >=? Z.of_nat (length (Simple._events base ++ [event])))
      with true by (symmetry; apply geb_true; lia).
    reflexivity.
Qed.

(** A valid run that is appended is read back as given at index [-1], also
    after a run of the same event. *)
Theorem rle_getitem_after_append (self : RLE.t E) (base_event : E)
    (run_length : Z) :
  1 <= run_length <= RLE._max_run_length self ->
  RLE.__getitem__
    (state_of (RLE.append self (RLE.IsPair base_event (RLE.IsInt run_length))))
    (-1)
  = Ok (base_event, run_length).
Proof.
  intros Hrun. unfold RLE.append.
  replace (run_length <? 1) with false by (symmetry; apply Z.ltb_ge; lia).
  replace (run_length >? RLE._max_run_length self) with false
    by (symmetry; apply gtb_false; lia).
  unfold RLE.__getitem__. cbn [state_of RLE.set_events RLE._events].
  now destruct (py_getitem_last (RLE._events self) (base_event, run_length))
    as [-> _].
Qed.

(** The way of the test suite: a sequence with
    [end_step = start_step + len] is encoded, with any cap, and decoded into
    a deep copy of itself cut to length 0; the copy then compares equal to
    the sequence. *)
Theorem decode_into_emptied_copy (S : Simple.t E) (m : Z) :
  Simple.end_step S = Simple.start_step S + Simple.__len__ S ->
  exists self target',
    RLE.__init__ (RLE.IsSimple S) m = Ok self
    /\ RLE.decode self (Simple.set_length (Simple.__deepcopy__ S) 0 false)
       = Returned (self, target')
    /\ Simple.__eq__ target' (Some S) = true.
Proof.
  intros Hinv.
  destruct (init_runs S m) as (events & Hinit & Hx & _).
  assert (Htarget : Simple.set_length (Simple.__deepcopy__ S) 0 false
                    = Simple.mk (Simple._pad_event S) []
                                (Simple._start_step S)
                                (Simple._start_step S + 0)
                                (Simple._steps_per_bar S)
                                (Simple._steps_per_quarter S)).
  { unfold Simple.set_length, Simple.__deepcopy__, Simple.__init__,
      Simple.__len__, Simple.pad_event, Simple.start_step,
      Simple.steps_per_bar, Simple.steps_per_quarter.
    cbn [Simple._events Simple._pad_event Simple._start_step
         Simple._steps_per_bar Simple._steps_per_quarter].
    replace (0 >? Z.of_nat (length (Simple._events S))) with false
      by (symmetry; apply gtb_false; lia).
    rewrite py_del_tail by lia. reflexivity. }
  rewrite Htarget. eexists. eexists. split; [exact Hinit|].
  split; [reflexivity|].
  cbn [RLE._events]. rewrite decode_loop_spec. apply simple_eq_fields.
  cbn [Simple._events Simple._start_step Simple._end_step
       Simple._steps_per_bar Simple._steps_per_quarter app].
  rewrite Hx. unfold Simple.end_step, Simple.start_step, Simple.__len__ in Hinv.
  repeat split; lia.
Qed.

End Access.

(** ** The further properties on concrete sequences *)

Ltac concrete :=
  unfold runs_AAB, runs_A_A, runs_AAA, runs_cap_zero, simple_ABC,
    simple_ABC_pad_0, rle_of, simple_of, empty_at, well_formed, runs_bounded;
  repeat split; repeat constructor; simpl; try lia; try reflexivity;
  try discriminate.

Lemma simple_set_length_right_witness :
  0 <= 5
  /\ ((Simple.__len__ simple_ABC <= 5 ->
       Simple._events (Simple.set_length simple_ABC 5 false)
       = Simple._events simple_ABC
         ++ repeat (Simple._pad_event simple_ABC)
                   (Z.to_nat (5 - Simple.__len__ simple_ABC)))
      /\ (5 <= Simple.__len__ simple_ABC ->
          Simple._events (Simple.set_length simple_ABC 5 false)
          = firstn (Z.to_nat 5) (Simple._events simple_ABC))
      /\ Simple.__len__ (Simple.set_length simple_ABC 5 false) = 5
      /\ Simple.start_step (Simple.set_length simple_ABC 5 false)
         = Simple.start_step simple_ABC
      /\ Simple.end_step (Simple.set_length simple_ABC 5 false)
         = Simple.start_step simple_ABC + 5).
Proof.
  split; [lia|]. apply (simple_set_length_right simple_ABC 5). lia.
Defined.

Lemma simple_set_length_left_witness :
  0 < 2
  /\ ((Simple.__len__ simple_ABC <= 2 ->
       Simple._events (Simple.set_length simple_ABC 2 true)
       = repeat (Simple._pad_event simple_ABC)
                (Z.to_nat (2 - Simple.__len__ simple_ABC))
         ++ Simple._events simple_ABC)
      /\ (2 <= Simple.__len__ simple_ABC ->
          Simple._events (Simple.set_length simple_ABC 2 true)
          = skipn (length (Simple._events simple_ABC) - Z.to_nat 2)
                  (Simple._events simple_ABC))
      /\ Simple.__len__ (Simple.set_length simple_ABC 2 true) = 2
      /\ Simple.end_step (Simple.set_length simple_ABC 2 true)
         = Simple.end_step simple_ABC
      /\ Simple.start_step (Simple.set_length simple_ABC 2 true)
         = Simple.end_step simple_ABC - 2).
Proof.
  split; [lia|]. apply (simple_set_length_left simple_ABC 2). lia.
Defined.

Lemma equal_sequences_grow_apart_witness :
  (Simple.__eq__ simple_ABC (Some simple_ABC_pad_0) = true
   /\ Simple._pad_event simple_ABC <> Simple._pad_event simple_ABC_pad_0
   /\ Simple.__len__ simple_ABC < 5)
  /\ Simple.__eq__ (Simple.set_length simple_ABC 5 false)
                   (Some (Simple.set_length simple_ABC_pad_0 5 false))
     = false.
Proof.
  assert (Heq : Simple.__eq__ simple_ABC (Some simple_ABC_pad_0) = true)
    by reflexivity.
  assert (Hpad : Simple._pad_event simple_ABC
                 <> Simple._pad_event simple_ABC_pad_0) by discriminate.
  assert (Hlen : Simple.__len__ simple_ABC < 5) by reflexivity.
  split; [split; [exact Heq | split; [exact Hpad | exact Hlen]]|].
  apply (equal_sequences_grow_apart simple_ABC simple_ABC_pad_0 5 false
           Heq Hpad Hlen).
Defined.

Lemma increase_resolution_positive_witness :
  1 <= 3
  /\ exists self',
       Simple.increase_resolution simple_ABC 3 pad_ = Returned self'
       /\ Simple._events self'
          = flat_map (fun event =>
                        if py_eq_dec pad_ py_None
                        then repeat event (Z.to_nat 3)
                        else event :: repeat pad_ (Z.to_nat (3 - 1)))
                     (Simple._events simple_ABC)
       /\ Simple.__len__ self' = 3 * Simple.__len__ simple_ABC
       /\ Simple.start_step self' = Simple.start_step simple_ABC * 3
       /\ Simple.end_step self' = Simple.end_step simple_ABC * 3
       /\ Simple.steps_per_bar self' = Simple.steps_per_bar simple_ABC * 3
       /\ Simple.steps_per_quarter self'
          = Simple.steps_per_quarter simple_ABC * 3
       /\ (Simple.end_step simple_ABC
           = Simple.start_step simple_ABC + Simple.__len__ simple_ABC ->
           Simple.end_step self'
           = Simple.start_step self' + Simple.__len__ self').
Proof.
  split; [lia|]. apply (increase_resolution_positive simple_ABC 3 pad_). lia.
Defined.

Lemma increase_resolution_twice_witness :
  (1 <= 2 /\ 1 <= 3)
  /\ Simple.increase_resolution
       (state_of (Simple.increase_resolution simple_ABC 2 pad_)) 3 pad_
     = Simple.increase_resolution simple_ABC (2 * 3) pad_.
Proof.
  split; [lia|]. apply (increase_resolution_twice simple_ABC 2 3 pad_); lia.
Defined.

Lemma canonical_unique_witness :
  (runs_bounded 2 [(A_, 2); (A_, 1)] /\ runs_bounded 2 [(A_, 2); (A_, 1)]
   /\ canonical 2 [(A_, 2); (A_, 1)] /\ canonical 2 [(A_, 2); (A_, 1)]
   /\ expand [(A_, 2); (A_, 1)] = expand [(A_, 2); (A_, 1)])
  /\ [(A_, 2); (A_, 1)] = [(A_, 2); (A_, 1)].
Proof.
  assert (Hb : runs_bounded 2 [(A_, 2); (A_, 1)]) by concrete.
  assert (Hc : canonical 2 [(A_, 2); (A_, 1)]) by concrete.
  split; [split; [exact Hb | split; [exact Hb | split; [exact Hc |
    split; [exact Hc | reflexivity]]]]|].
  apply (canonical_unique 2 _ _ Hb Hb Hc Hc eq_refl).
Defined.

Lemma standardize_idempotent_witness :
  well_formed runs_A_A
  /\ ((canonical (RLE._max_run_length runs_A_A) (RLE._events runs_A_A) ->
       RLE._standardize_run_lengths runs_A_A = runs_A_A)
      /\ RLE._standardize_run_lengths (RLE._standardize_run_lengths runs_A_A)
         = RLE._standardize_run_lengths runs_A_A).
Proof.
  assert (Hwf : well_formed runs_A_A) by concrete.
  split; [exact Hwf|]. apply (standardize_idempotent runs_A_A Hwf).
Defined.

Lemma same_content_same_standard_form_witness :
  (well_formed runs_A_A /\ well_formed (rle_of [(A_, 2)] 2 0)
   /\ RLE._max_run_length runs_A_A = RLE._max_run_length (rle_of [(A_, 2)] 2 0)
   /\ expand (RLE._events runs_A_A) = expand (RLE._events (rle_of [(A_, 2)] 2 0)))
  /\ RLE._events (RLE._standardize_run_lengths runs_A_A)
     = RLE._events (RLE._standardize_run_lengths (rle_of [(A_, 2)] 2 0)).
Proof.
  assert (Hwf1 : well_formed runs_A_A) by concrete.
  assert (Hwf2 : well_formed (rle_of [(A_, 2)] 2 0)) by concrete.
  split; [split; [exact Hwf1 | split; [exact Hwf2 | split; reflexivity]]|].
  apply (same_content_same_standard_form _ _ Hwf1 Hwf2 eq_refl eq_refl).
Defined.

Lemma standardize_is_encoding_witness :
  (well_formed runs_A_A
   /\ Simple._events (simple_of [A_; A_] 0) = expand (RLE._events runs_A_A))
  /\ exists encoded,
       RLE.__init__ (RLE.IsSimple (simple_of [A_; A_] 0))
                    (RLE._max_run_length runs_A_A)
       = Ok encoded
       /\ RLE._events encoded
          = RLE._events (RLE._standardize_run_lengths runs_A_A).
Proof.
  assert (Hwf : well_formed runs_A_A) by concrete.
  split; [split; [exact Hwf | reflexivity]|].
  apply (standardize_is_encoding runs_A_A (simple_of [A_; A_] 0) Hwf eq_refl).
Defined.

Lemma encode_decode_round_trip_witness :
  (well_formed runs_AAA
   /\ canonical (RLE._max_run_length runs_AAA) (RLE._events runs_AAA)
   /\ Simple.__len__ (empty_at 0) = 0)
  /\ exists target' encoded,
       RLE.decode runs_AAA (empty_at 0) = Returned (runs_AAA, target')
       /\ RLE.__init__ (RLE.IsSimple target') (RLE._max_run_length runs_AAA)
          = Ok encoded
       /\ RLE._events encoded = RLE._events runs_AAA
       /\ RLE.start_step encoded = Simple.start_step (empty_at 0).
Proof.
  assert (Hwf : well_formed runs_AAA) by concrete.
  assert (Hc : canonical (RLE._max_run_length runs_AAA) (RLE._events runs_AAA))
    by concrete.
  split; [split; [exact Hwf | split; [exact Hc | reflexivity]]|].
  apply (encode_decode_round_trip runs_AAA (empty_at 0) Hwf Hc eq_refl).
Defined.

Lemma set_length_grows_witness :
  (well_formed runs_AAB /\ RLE.num_steps runs_AAB < 5)
  /\ ((exists fuel out, RLE.set_length fuel runs_AAB 5 true = Some out)
      /\ forall fuel out,
           RLE.set_length fuel runs_AAB 5 true = Some out ->
           exists self',
             out = Returned self'
             /\ expand (RLE._events self')
                = (if true
                   then repeat (RLE._pad_event runs_AAB)
                               (Z.to_nat (5 - RLE.num_steps runs_AAB))
                        ++ expand (RLE._events runs_AAB)
                   else expand (RLE._events runs_AAB)
                        ++ repeat (RLE._pad_event runs_AAB)
                                  (Z.to_nat (5 - RLE.num_steps runs_AAB)))
             /\ RLE.num_steps self' = 5
             /\ RLE.start_step self'
                = (if true
                   then RLE.start_step runs_AAB - (5 - RLE.num_steps runs_AAB)
                   else RLE.start_step runs_AAB)
             /\ RLE.end_step self'
                = (if true then RLE.end_step runs_AAB
                   else RLE.start_step runs_AAB + 5)).
Proof.
  assert (Hwf : well_formed runs_AAB) by concrete.
  assert (Hlt : RLE.num_steps runs_AAB < 5) by reflexivity.
  split; [split; [exact Hwf | exact Hlt]|].
  apply (set_length_grows runs_AAB 5 true Hwf Hlt).
Defined.

Lemma set_length_shrinks_from_right_witness :
  (well_formed runs_AAB /\ 0 <= 1 <= RLE.num_steps runs_AAB)
  /\ ((exists fuel out, RLE.set_length fuel runs_AAB 1 false = Some out)
      /\ forall fuel out,
           RLE.set_length fuel runs_AAB 1 false = Some out ->
           exists self',
             out = Returned self'
             /\ expand (RLE._events self')
                = firstn (Z.to_nat 1) (expand (RLE._events runs_AAB))
             /\ RLE.num_steps self' = 1
             /\ RLE.start_step self' = RLE.start_step runs_AAB
             /\ RLE.end_step self' = RLE.start_step runs_AAB + 1).
Proof.
  assert (Hwf : well_formed runs_AAB) by concrete.
  assert (Hsteps : 0 <= 1 <= RLE.num_steps runs_AAB)
    by (split; discriminate).
  split; [split; [exact Hwf | exact Hsteps]|].
  apply (set_length_shrinks_from_right runs_AAB 1 Hwf Hsteps).
Defined.

Lemma set_length_negative_from_right_witness :
  (well_formed runs_AAB /\ -1 < 0)
  /\ ((exists fuel out, RLE.set_length fuel runs_AAB (-1) false = Some out)
      /\ forall fuel out,
           RLE.set_length fuel runs_AAB (-1) false = Some out ->
           out = Raised IndexError (RLE.set_events runs_AAB [])).
Proof.
  assert (Hwf : well_formed runs_AAB) by concrete.
  assert (Hneg : -1 < 0) by reflexivity.
  split; [split; [exact Hwf | exact Hneg]|].
  apply (set_length_negative_from_right runs_AAB (-1) Hwf Hneg).
Defined.

Lemma set_length_shrinks_from_left_witness :
  (well_formed runs_AAB
   /\ RLE._events runs_AAB = (A_, 2) :: [(B_, 1)]
   /\ 2 <= RLE.num_steps runs_AAB)
  /\ ((exists fuel out, RLE.set_length fuel runs_AAB 2 true = Some out)
      /\ forall fuel out,
           RLE.set_length fuel runs_AAB 2 true = Some out ->
           exists self',
             out = Returned self'
             /\ expand (RLE._events self')
                = skipn (Z.to_nat ((RLE.num_steps runs_AAB - 2) mod 2))
                        (expand (RLE._events runs_AAB))
             /\ RLE.num_steps self'
                = RLE.num_steps runs_AAB - (RLE.num_steps runs_AAB - 2) mod 2
             /\ RLE.start_step self'
                = RLE.start_step runs_AAB + (RLE.num_steps runs_AAB - 2)
             /\ (RLE.num_steps runs_AAB - 2 < 2 ->
                 RLE.num_steps self' = 2
                 /\ RLE.end_step self' = RLE.end_step runs_AAB)).
Proof.
  assert (Hwf : well_formed runs_AAB) by concrete.
  assert (Hev : RLE._events runs_AAB = (A_, 2) :: [(B_, 1)]) by reflexivity.
  assert (Hsteps : 2 <= RLE.num_steps runs_AAB) by discriminate.
  split; [split; [exact Hwf | split; [exact Hev | exact Hsteps]]|].
  apply (set_length_shrinks_from_left runs_AAB 2 A_ 2 [(B_, 1)] Hwf Hev Hsteps).
Defined.

Lemma set_length_to_current_length_witness :
  (well_formed runs_AAA
   /\ canonical (RLE._max_run_length runs_AAA) (RLE._events runs_AAA))
  /\ RLE.set_length 1 runs_AAA (RLE.num_steps runs_AAA) true
     = Some (Returned runs_AAA).
Proof.
  assert (Hwf : well_formed runs_AAA) by concrete.
  assert (Hc : canonical (RLE._max_run_length runs_AAA) (RLE._events runs_AAA))
    by concrete.
  split; [split; [exact Hwf | exact Hc]|].
  apply (set_length_to_current_length runs_AAA 0 true Hwf Hc).
Defined.

Lemma set_length_grow_never_returns_witness :
  (RLE._max_run_length runs_cap_zero <= 0 /\ RLE.num_steps runs_cap_zero < 3)
  /\ forall fuel, RLE.set_length fuel runs_cap_zero 3 false = None.
Proof.
  assert (Hm : RLE._max_run_length runs_cap_zero <= 0) by discriminate.
  assert (Hlt : RLE.num_steps runs_cap_zero < 3) by reflexivity.
  split; [split; [exact Hm | exact Hlt]|].
  apply (set_length_grow_never_returns runs_cap_zero 3 false Hm Hlt).
Defined.

Lemma padding_consumes_steps_witness :
  1 <= RLE._max_run_length runs_AAB
  /\ ((exists fuel padding, RLE._padding fuel runs_AAB 3 = Some padding)
      /\ forall fuel padding,
           RLE._padding fuel runs_AAB 3 = Some padding ->
           expand padding = repeat (RLE._pad_event runs_AAB) (Z.to_nat 3)
           /\ runs_bounded (RLE._max_run_length runs_AAB) padding
           /\ canonical (RLE._max_run_length runs_AAB) padding).
Proof.
  assert (Hm : 1 <= RLE._max_run_length runs_AAB) by discriminate.
  split; [exact Hm|]. apply (padding_consumes_steps runs_AAB 3 Hm).
Defined.

Lemma num_steps_at_least_len_witness :
  Forall (fun run => 1 <= snd run) (RLE._events runs_AAB)
  /\ RLE.__len__ runs_AAB <= RLE.num_steps runs_AAB.
Proof.
  assert (Hpos : Forall (fun run => 1 <= snd run) (RLE._events runs_AAB))
    by (repeat constructor; discriminate).
  split; [exact Hpos|]. apply (num_steps_at_least_len runs_AAB Hpos).
Defined.

Lemma rle_getitem_after_append_witness :
  1 <= 1 <= RLE._max_run_length runs_AAB
  /\ RLE.__getitem__
       (state_of (RLE.append runs_AAB (RLE.IsPair B_ (RLE.IsInt 1)))) (-1)
     = Ok (B_, 1).
Proof.
  assert (Hrun : 1 <= 1 <= RLE._max_run_length runs_AAB)
    by (split; discriminate).
  split; [exact Hrun|]. apply (rle_getitem_after_append runs_AAB B_ 1 Hrun).
Defined.

Lemma decode_into_emptied_copy_witness :
  Simple.end_step simple_ABC
  = Simple.start_step simple_ABC + Simple.__len__ simple_ABC
  /\ exists self target',
       RLE.__init__ (RLE.IsSimple simple_ABC) 2 = Ok self
       /\ RLE.decode self
            (Simple.set_length (Simple.__deepcopy__ simple_ABC) 0 false)
          = Returned (self, target')
       /\ Simple.__eq__ target' (Some simple_ABC) = true.
Proof.
  split; [reflexivity|].
  apply (decode_into_emptied_copy simple_ABC 2). reflexivity.
Defined.

(** ** More scenarios of [events_lib_test.py] *)

Example testSetLength_simple :
  Simple.set_length (Simple.__init__ (PyInt 0) (Some [PyInt 60]) 9 16 4) 5 false
  = Simple.mk (PyInt 0) [PyInt 60; PyInt 0; PyInt 0; PyInt 0; PyInt 0] 9 14 16 4
  /\ Simple.set_length (Simple.__init__ (PyInt 0) (Some [PyInt 60]) 9 16 4) 5 true
     = Simple.mk (PyInt 0) [PyInt 0; PyInt 0; PyInt 0; PyInt 0; PyInt 60] 5 10 16 4
  /\ Simple.set_length
       (Simple.__init__ (PyInt 0) (Some [PyInt 60; PyInt 0; PyInt 0; PyInt 0])
                        0 16 4) 3 false
     = Simple.mk (PyInt 0) [PyInt 60; PyInt 0; PyInt 0] 0 3 16 4
  /\ Simple.set_length
       (Simple.__init__ (PyInt 0) (Some [PyInt 60; PyInt 0; PyInt 0; PyInt 0])
                        0 16 4) 3 true
     = Simple.mk (PyInt 0) [PyInt 0; PyInt 0; PyInt 0] 1 4 16 4.
Proof. repeat split. Qed.

Example testDeepcopy :
  Simple.__eq__ (Simple.__deepcopy__ simple_ABC) (Some simple_ABC) = true
  /\ Simple.__eq__ (Simple.set_length simple_ABC 2 false)
                   (Some (Simple.__deepcopy__ simple_ABC)) = false.
Proof. split; reflexivity. Qed.

(** ** Where the constructor departs from its documentation and tests *)

(** C3 does not hold of the code.  The call of the test,
    [RunLengthEncodedEventSequence(base_events, 2,
    only_encode_pad_event=True)], never reaches an encoding: for every base,
    every cap and every value of the flag the keyword names no parameter of
    [__init__] and the call raises [TypeError].  On
    ['A', 'A', '_', '_', '_', 'B'] with cap 2 no choice of keywords returns
    the run list [('A', 1), ('A', 1), ('_', 2), ('_', 1), ('B', 1)] that the
    claim and the test expect, and the call without keywords returns
    [('A', 2), ('_', 2), ('_', 1), ('B', 1)], the two 'A' merged. *)
Theorem only_encode_pad_event_is_not_accepted :
  (forall (base_events : RLE.base_arg pyval) (max_run_length : Z) (flag : bool),
     RLE.call_with_keywords base_events max_run_length
       [("only_encode_pad_event"%string, flag)]
     = Error (TypeError
                "__init__() got an unexpected keyword argument 'only_encode_pad_event'"))
  /\ (forall keywords : list (string * bool),
        RLE.call_with_keywords
          (RLE.IsSimple (simple_of [A_; A_; pad_; pad_; pad_; B_] 0)) 2 keywords
        <> Ok (rle_of [(A_, 1); (A_, 1); (pad_, 2); (pad_, 1); (B_, 1)] 2 0))
  /\ RLE.call_with_keywords
       (RLE.IsSimple (simple_of [A_; A_; pad_; pad_; pad_; B_] 0)) 2
       (@nil (string * bool))
     = Ok (rle_of [(A_, 2); (pad_, 2); (pad_, 1); (B_, 1)] 2 0).
Proof.
  split; [intros base_events max_run_length flag; reflexivity|].
  split; [|reflexivity].
  intros [|[name value] keywords].
  - discriminate.
  - unfold RLE.call_with_keywords.
    destruct (String.eqb name "base_events"
              || String.eqb name "max_run_length"); discriminate.
Qed.

(** C6 does not hold of the code.  [RunLengthEncodedEventSequence(base, 0)]
    on the base ['A', 'A'] raises nothing: it returns an object with
    [max_run_length] 0 and the run [('A', 2)].  That run is longer than the
    cap, against the class docstring (a run-length is between 1 and
    [max_run_length]) and the guard of [append], and [set_length] to more
    steps on the object never returns. *)
Theorem init_with_cap_zero_breaks_run_length_bound :
  RLE.__init__ (RLE.IsSimple (simple_of [A_; A_] 0)) 0 = Ok runs_cap_zero
  /\ RLE._max_run_length runs_cap_zero = 0
  /\ RLE._events runs_cap_zero = [(A_, 2)]
  /\ ~ runs_bounded (RLE._max_run_length runs_cap_zero)
                    (RLE._events runs_cap_zero)
  /\ raised (RLE.append runs_cap_zero (RLE.IsPair A_ (RLE.IsInt 2))) = true
  /\ forall fuel, RLE.set_length fuel runs_cap_zero 3 false = None.
Proof.
  split; [reflexivity|]. split; [reflexivity|]. split; [reflexivity|].
  split; [|split; [reflexivity|]].
  - intros Hb. inversion Hb as [|? ? Hrun _]; subst. simpl in Hrun. lia.
  - intros fuel. unfold RLE.set_length, RLE._padding.
    change (3 >? RLE.num_steps runs_cap_zero) with true. cbv iota.
    rewrite padding_loop_never_returns; [reflexivity | simpl; lia | simpl; lia].
Qed.
